(** * icinga2api.client: the event stream reader and the request helper

    A shallow embedding of [icinga2api/client.py]: the class [Base] with
    [_create_session], [_request] and the generator [fetech_from_stream],
    and the class [Events] with the generator [subscribe].

    Python text ([str]) is a list of characters, Python generators are
    resumption trees over the state of the world they run in, and the
    mutable attribute [self.stream_cache] lives in that state, so that two
    generators running on one object see each other's writes. *)

From Stdlib Require Import ZArith String Ascii Bool Arith Lia DecimalString List.
From Equations Require Import Equations.
Import ListNotations.

Set Implicit Arguments.
Set Warnings "-register-all".

(** ** Python values *)

Module Py.

(** A Python [str]: its characters in order. *)
Abbreviation str := (list ascii) (only parsing).

Definition text (s : string) : str := list_ascii_of_string s.

(** The line feed (the default [split_str]) and the double quote. *)
Definition LF : ascii := "010"%char.
Definition DQUOTE : ascii := "034"%char.

(** The exception classes that the modelled code can raise: the built-in
    ones, the one [requests] raises when a request cannot be made, and
    the two classes declared at the top of [client.py]. *)
Inductive exn : Type :=
| TypeError
| ValueError
| RequestException
| Icinga2ApiException (error : str)
| Icinga2ApiConfigFileException (error : str).

(** The values that flow through [subscribe] and [_request]: JSON-like
    data, and a callable taking a chunk size and returning the chunks of a
    response body (what [fetech_from_stream] expects [stream] to be). *)
Inductive value : Type :=
| PNone
| PBool (b : bool)
| PInt (z : Z)
| PStr (s : str)
| PList (items : list value)
| PDict (items : list (str * value))
| PCallable (chunks : nat -> list str).

(** Truth value testing, as in [if payload:]. *)
Definition truthy (v : value) : bool :=
  match v with
  | PNone => false
  | PBool b => b
  | PInt z => negb (z =? 0)%Z
  | PStr s => negb (length s =? 0)
  | PList items => negb (length items =? 0)
  | PDict items => negb (length items =? 0)
  | PCallable _ => true
  end.

(** An attribute that holds [None] or a [str], tested as in
    [if self.manager.certificate:]. *)
Definition truthy_attr (a : option str) : bool :=
  match a with
  | Some (_ :: _) => true
  | _ => false
  end.

(** [isinstance(v, dict)]: what [json.loads] gives for a JSON object. *)
Definition is_dict (v : value) : bool :=
  match v with
  | PDict _ => true
  | _ => false
  end.

(** [isinstance(v, str)]. *)
Definition is_str (v : value) : bool :=
  match v with
  | PStr _ => true
  | _ => false
  end.

(** [d[key]] on a dict display, [None] when the key is absent. *)
Fixpoint lookup (key : str) (items : list (str * value)) : option value :=
  match items with
  | [] => None
  | (k, v) :: items' =>
      if list_eq_dec ascii_dec k key then Some v else lookup key items'
  end.

(** [stream(chunk_size)]: calling a value. Only a callable can be called. *)
Definition call (f : value) (chunk_size : nat) : exn + list str :=
  match f with
  | PCallable chunks => inr (chunks chunk_size)
  | _ => inl TypeError
  end.

(** *** [str] methods *)

(** [s.startswith(prefix)]. *)
Fixpoint startswith (s prefix : str) : bool :=
  match prefix, s with
  | [], _ => true
  | p :: prefix', c :: s' => Ascii.eqb c p && startswith s' prefix'
  | _ :: _, [] => false
  end.

(** [s.partition(sep)] at the leftmost occurrence of [sep]: the text
    before it and the text after it, [None] when [sep] does not occur. *)
Fixpoint partition (s sep : str) : option (str * str) :=
  if startswith s sep then Some ([], skipn (length sep) s)
  else
    match s with
    | [] => None
    | c :: s' =>
        match partition s' sep with
        | Some (before, after) => Some (c :: before, after)
        | None => None
        end
    end.

Lemma startswith_length s prefix :
  startswith s prefix = true -> length prefix <= length s.
Proof.
  revert s. induction prefix as [|p prefix IH]; intros [|c s]; simpl; try lia.
  intros H. apply andb_prop in H. destruct H as [_ H].
  apply IH in H. lia.
Qed.

Lemma partition_length s sep before after :
  partition s sep = Some (before, after) ->
  length s = length before + length sep + length after.
Proof.
  revert before after.
  induction s as [|c s IH]; intros before after.
  - cbn [partition]. destruct (startswith [] sep) eqn:E; [|discriminate].
    intros H. injection H as <- <-.
    apply startswith_length in E. rewrite skipn_nil. cbn [length] in *. lia.
  - cbn [partition]. destruct (startswith (c :: s) sep) eqn:E.
    + intros H. injection H as <- <-.
      apply startswith_length in E. rewrite length_skipn. cbn [length] in *. lia.
    + destruct (partition s sep) as [[b a]|] eqn:P; [|discriminate].
      intros H. injection H as <- <-.
      specialize (IH _ _ eq_refl). cbn [length]. lia.
Qed.

Definition inspect {A : Type} (a : A) : {b : A | a = b} := exist _ a eq_refl.

(** The loop of [s.split(sep)] for a non-empty separator [c :: sep]: cut
    at the leftmost occurrence, go on after it, and end with what is
    left. The result always has one piece more than separators found. *)
Equations? split_loop (s : str) (c : ascii) (sep : str) : list str
  by wf (length s) lt :=
  split_loop s c sep with inspect (partition s (c :: sep)) => {
    | exist _ None _ := [s];
    | exist _ (Some (before, after)) found :=
        before :: split_loop after c sep }.
Proof.
  apply partition_length in found. simpl in found. lia.
Qed.

(** [s.split(sep)]. An empty separator raises [ValueError]. *)
Definition split (s sep : str) : exn + list str :=
  match sep with
  | [] => inl ValueError
  | c :: sep' => inr (split_loop s c sep')
  end.

(** The loop of [s.count(sep)] for a non-empty separator: the number of
    occurrences found from left to right without overlap. *)
Equations? count_loop (s : str) (c : ascii) (sep : str) : nat
  by wf (length s) lt :=
  count_loop s c sep with inspect (partition s (c :: sep)) => {
    | exist _ None _ := 0;
    | exist _ (Some (before, after)) found := S (count_loop after c sep) }.
Proof.
  apply partition_length in found. simpl in found. lia.
Qed.

(** [s.count(sep)]. For an empty separator Python counts the gaps. *)
Definition count (s sep : str) : nat :=
  match sep with
  | [] => S (length s)
  | c :: sep' => count_loop s c sep'
  end.

(** [s.upper()] on ASCII letters. *)
Definition upper_char (c : ascii) : ascii :=
  let n := nat_of_ascii c in
  if (97 <=? n) && (n <=? 122) then ascii_of_nat (n - 32) else c.

Definition upper (s : str) : str := map upper_char s.

(** ['{}'.format(n)] for an [int]. *)
Definition format_int (z : Z) : str :=
  text (NilZero.string_of_int (Z.to_int z)).

(** [lines[:-1]] and [lines[-1]] on a non-empty list. *)
Definition all_but_last (lines : list str) : list str := removelast lines.
Definition last_item (lines : list str) : str := last lines [].

(** *** Calling a function: binding the arguments *)

(** A parameter of a [def], with its default when it has one. *)
Record param : Type := { pname : string; pdefault : option value }.

Definition required (name : string) : param :=
  {| pname := name; pdefault := None |}.
Definition optional (name : string) (default : value) : param :=
  {| pname := name; pdefault := Some default |}.

Definition has_name (name : string) (p : param) : bool :=
  String.eqb (pname p) name.

(** Whether a call with [npos] positional arguments and the keyword
    arguments [keywords] binds to the parameters [params] (a [def] with
    neither [*args] nor [**kwargs]; [self] already taken off). Python
    raises [TypeError] for a keyword that names no parameter, for a
    keyword that names a parameter already given by position, for too
    many positional arguments, and for a parameter left without value. *)
Definition bind_arguments (params : list param) (npos : nat)
  (keywords : list string) : option exn :=
  let by_position := firstn npos params in
  let others := skipn npos params in
  if negb (forallb (fun k => existsb (has_name k) params) keywords)
  then Some TypeError
  else if existsb (fun k => existsb (has_name k) by_position) keywords
  then Some TypeError
  else if length params <? npos
  then Some TypeError
  else if negb (forallb (fun p =>
                  match pdefault p with
                  | Some _ => true
                  | None => existsb (String.eqb (pname p)) keywords
                  end) others)
  then Some TypeError
  else None.

End Py.

(** ** Generators *)

Module Gen.

Import Py.

(** What a generator does from the point where it is started or resumed,
    run in a world of type [S]: it suspends at a [yield] with a value,
    leaving the world as [s], and goes on from whatever world it is
    resumed in; or its body ends; or it raises. *)
Inductive gen (S A : Type) : Type :=
| Yield (a : A) (s : S) (resume : S -> gen S A)
| Return (s : S)
| Raise (e : exn) (s : S).

Arguments Yield {S A} a s resume.
Arguments Return {S A} s.
Arguments Raise {S A} e s.

(** Two pieces of a generator body, one after the other. *)
Fixpoint and_then {S A : Type} (g : gen S A) (k : S -> gen S A) : gen S A :=
  match g with
  | Yield a s resume => Yield a s (fun s' => and_then (resume s') k)
  | Return s => k s
  | Raise e s => Raise e s
  end.

(** [for x in xs: yield f(x)] over a list. *)
Fixpoint yield_each {S A B : Type} (f : A -> B) (xs : list A) (s : S)
  : gen S B :=
  match xs with
  | [] => Return s
  | x :: xs' => Yield (f x) s (yield_each f xs')
  end.

(** [for a in g: body(a)] over a generator. *)
Fixpoint for_in {S A B : Type} (g : gen S A) (body : A -> S -> gen S B)
  : gen S B :=
  match g with
  | Yield a s resume =>
      and_then (body a s) (fun s' => for_in (resume s') body)
  | Return s => Return s
  | Raise e s => Raise e s
  end.

(** What the consumer gets from one [next(g)]. *)
Inductive outcome (A : Type) : Type :=
| Item (a : A)
| StopIteration
| Error (e : exn).

Arguments Item {A} a.
Arguments StopIteration {A}.
Arguments Error {A} e.

Definition next {S A : Type} (g : gen S A) : outcome A :=
  match g with
  | Yield a _ _ => Item a
  | Return _ => StopIteration
  | Raise e _ => Error e
  end.

(** [list(g)] by a consumer that leaves the world alone between two
    [next]: the values yielded until the generator ends or raises. *)
Fixpoint items {S A : Type} (g : gen S A) : list A :=
  match g with
  | Yield a s resume => a :: items (resume s)
  | Return _ => []
  | Raise _ _ => []
  end.

(** The world that such a run leaves behind, and how the run ended. *)
Fixpoint final {S A : Type} (g : gen S A) : S :=
  match g with
  | Yield _ s resume => final (resume s)
  | Return s => s
  | Raise _ s => s
  end.

Fixpoint raised {S A : Type} (g : gen S A) : option exn :=
  match g with
  | Yield _ s resume => raised (resume s)
  | Return _ => None
  | Raise e _ => Some e
  end.

End Gen.

(** ** [icinga2api/client.py] *)

Module client.

Import Py Gen.

(** An instance of [Client], as far as [Base] reads it. *)
Record Client : Type := {
  url : str;
  username : option str;
  password : option str;
  timeout : option str;
  certificate : option str;
  key : option str;
  ca_certificate : option str;
  version : str
}.

(** An instance of [Base] or of one of its subclasses. *)
Record Base : Type := {
  manager : Client;
  stream_cache : str
}.

(** [Base.__init__]. *)
Definition __init__ (manager : Client) : Base :=
  {| manager := manager; stream_cache := [] |}.

(** A [requests.Session] as [_create_session] sets it up. *)
Inductive cert_files : Type :=
| CertAndKey (certificate key : str)
| CertOnly (certificate : str).

Record Session : Type := {
  cert : option cert_files;
  auth : option (str * str);
  headers : list (str * str)
}.

(** The keyword arguments of [session.post]; [verify] is a path or
    [False], here [None]. *)
Record RequestArgs : Type := {
  arg_url : str;
  arg_json : option value;
  arg_verify : option str
}.

(** A [requests.Response]; [body_json] is [None] when the body is not
    JSON, and then [response.json()] raises [ValueError]. *)
Record Response : Type := {
  response_url : str;
  status_code : Z;
  response_text : str;
  body_json : option value
}.

Definition json (response : Response) : exn + value :=
  match body_json response with
  | Some v => inr v
  | None => inl ValueError
  end.

(** What goes over the network. *)
Inductive io_event : Type :=
| SessionPost (session : Session) (args : RequestArgs)
| SessionClose.

(** The world a method runs in: the object it is called on and the
    network traffic so far, oldest first. *)
Record World : Type := {
  self : Base;
  wire : list io_event
}.

Definition set_cache (w : World) (cache : str) : World :=
  {| self := {| manager := manager (self w); stream_cache := cache |};
     wire := wire w |}.

Definition log (w : World) (events : list io_event) : World :=
  {| self := self w; wire := wire w ++ events |}.

(** [Base._create_session]. *)
Definition _create_session (this : Base) (method : str) : Session :=
  let m := manager this in
  {| cert :=
       if truthy_attr (certificate m) && truthy_attr (key m)
       then match certificate m, key m with
            | Some c, Some k => Some (CertAndKey c k)
            | _, _ => None
            end
       else if truthy_attr (certificate m)
       then option_map CertOnly (certificate m)
       else None;
     auth :=
       if truthy_attr (certificate m) then None
       else if truthy_attr (username m) && truthy_attr (password m)
       then match username m, password m with
            | Some u, Some p => Some (u, p)
            | _, _ => None
            end
       else None;
     headers :=
       [ (text "User-Agent", text "Python-icinga2api/" ++ version m);
         (text "X-HTTP-Method-Override", upper method);
         (text "Accept", text "application/json") ] |}.

(** The message of the exception that [_request] raises. *)
Definition failed_message (response : Response) : str :=
  text "Request " ++ [DQUOTE] ++ response_url response ++ [DQUOTE]
  ++ text " failed with status " ++ format_int (status_code response)
  ++ text ": " ++ response_text response.

Section Transport.

(** [urllib]'s [urljoin], and the answer of the network to a
    [session.post]: a response, or [None] when no response is obtained
    and [requests] raises. *)
Variable urljoin : str -> str -> str.
Variable session_post : Session -> RequestArgs -> option Response.

(** The arguments that [_request] collects for [session.post] (lines 279
    to 294). *)
Definition request_args (this : Base) (url_path : str) (payload : value)
  : RequestArgs :=
  let request_url := urljoin (url (manager this)) url_path in
  {| arg_url := request_url;
     arg_json := if truthy payload then Some payload else None;
     arg_verify :=
       if truthy_attr (ca_certificate (manager this))
       then ca_certificate (manager this)
       else None |}.

(** [Base._request]. The session is closed once the response is there;
    what the function logs and prints is left out. *)
Definition _request (method url_path : str) (payload : value) (w : World)
  : (exn + value) * World :=
  let session := _create_session (self w) method in
  let request_args := request_args (self w) url_path payload in
  match session_post session request_args with
  | None => (inl RequestException, log w [SessionPost session request_args])
  | Some response =>
      let w' := log w [SessionPost session request_args; SessionClose] in
      if negb ((200 <=? status_code response)%Z
               && (status_code response <=? 299)%Z)
      then (inl (Icinga2ApiException (failed_message response)), w')
      else (json response, w')
  end.

(** The parameters of [_request] after [self]. *)
Definition _request_params : list param :=
  [ required "method"; required "url_path"; optional "payload" PNone ].

End Transport.

(** One turn of the loop of [fetech_from_stream] (lines 321 to 325): the
    lines it yields, if it yields, and the world it leaves. *)
Definition feed (chunk split_str : str) (w : World)
  : (exn + option (list str)) * World :=
  let w1 := set_cache w (stream_cache (self w) ++ chunk) in
  match split (stream_cache (self w1)) split_str with
  | inl e => (inl e, w1)
  | inr lines =>
      if 2 <=? length lines
      then (inr (Some (all_but_last lines)), set_cache w1 (last_item lines))
      else (inr None, w1)
  end.

(** [for chunk in ...] of [fetech_from_stream] over the chunks that the
    stream delivers until it ends. *)
Fixpoint fetech_loop (chunks : list str) (split_str : str) (w : World)
  : gen World (list str) :=
  match chunks with
  | [] => Return w
  | chunk :: chunks' =>
      match feed chunk split_str w with
      | (inl e, w') => Raise e w'
      | (inr (Some lines), w') =>
          Yield lines w' (fetech_loop chunks' split_str)
      | (inr None, w') => fetech_loop chunks' split_str w'
      end
  end.

(** [Base.fetech_from_stream]. *)
Definition fetech_from_stream (stream : value) (split_str : str)
  (chunk_size : nat) (w : World) : gen World (list str) :=
  match call stream chunk_size with
  | inl e => Raise e w
  | inr chunks => fetech_loop chunks split_str w
  end.

(** The defaults of [split_str] and [chunk_size]. *)
Definition default_split_str : str := [LF].
Definition default_chunk_size : nat := 1024.

(** [Events.base_url_path]. *)
Definition base_url_path : str := text "/v1/events".

(** The payload that [Events.subscribe] builds (lines 1017 to 1022). *)
Definition subscribe_payload (types queue filters : value) : value :=
  PDict ([ (text "types", types); (text "queue", queue) ]
         ++ if truthy filters then [ (text "filters", filters) ] else []).

(** The two loops of [Events.subscribe] over the stream (lines 1024 to
    1026). *)
Definition subscribe_events (stream : value) (w : World) : gen World value :=
  for_in (fetech_from_stream stream default_split_str default_chunk_size w)
         (fun events => yield_each PStr events).

Section Subscribe.

Variable urljoin : str -> str -> str.
Variable session_post : Session -> RequestArgs -> option Response.

(** [Events.subscribe]: the generator that a call returns, as what it
    does when it is started in the world [w]. The call at line 1023 has
    three positional arguments and the keyword [stream]. *)
Definition subscribe (types queue filters : value) (w : World)
  : gen World value :=
  let payload := subscribe_payload types queue filters in
  match bind_arguments _request_params 3 ["stream"%string] with
  | Some e => Raise e w
  | None =>
      match _request urljoin session_post (text "POST") base_url_path
                     payload w with
      | (inl e, w') => Raise e w'
      | (inr stream, w') => subscribe_events stream w'
      end
  end.

End Subscribe.

(** ** Notions used by the properties *)

(** [sep] occurs somewhere in [s]. *)
Definition occurs (sep s : str) : Prop :=
  exists u v, s = u ++ sep ++ v.

(** Records put back on the wire: each followed by the delimiter. *)
Definition rejoin (sep : str) (records : list str) : str :=
  concat (map (fun r => r ++ sep) records).

(** The records of a whole run of [fetech_from_stream], in order. *)
Definition records (g : gen World (list str)) : list str :=
  concat (items g).

(** The states of an object that feeding chunks to it, from its
    construction on, can lead to, with one delimiter throughout. *)
Inductive reachable (split_str : str) : World -> Prop :=
| reach_new (m : Client) (traffic : list io_event) :
    reachable split_str {| self := __init__ m; wire := traffic |}
| reach_feed (w w' : World) (chunk : str) (out : option (list str)) :
    reachable split_str w ->
    feed chunk split_str w = (inr out, w') ->
    reachable split_str w'.

(** The exceptions by which this module reports a bad configuration or a
    bad argument. *)
Definition is_configuration_error (e : exn) : bool :=
  match e with
  | ValueError => true
  | Icinga2ApiException _ => true
  | Icinga2ApiConfigFileException _ => true
  | TypeError => false
  | RequestException => false
  end.

(** How often a request went out. *)
Definition posts (w : World) : nat :=
  length (filter (fun ev => match ev with
                            | SessionPost _ _ => true
                            | SessionClose => false
                            end) (wire w)).

(** The objects used to run the code on examples: a client with basic
    authentication, and a freshly constructed [Events] object before any
    traffic. *)
Definition example_client : Client :=
  {| url := text "https://localhost:5665";
     username := Some (text "root");
     password := Some (text "icinga");
     timeout := None;
     certificate := None;
     key := None;
     ca_certificate := None;
     version := text "0.3" |}.

Definition fresh : World :=
  {| self := __init__ example_client; wire := [] |}.

(** A network that answers every request with the given status. *)
Definition answer (status : Z) (body : option value)
  (session : Session) (args : RequestArgs) : option Response :=
  Some {| response_url := arg_url args;
          status_code := status;
          response_text := [];
          body_json := body |}.

(** A stream that delivers the given chunks and ends. *)
Definition stream_of (chunks : list str) : value :=
  PCallable (fun _ => chunks).

(** ** The request builders

    The classes [Objects], [Actions] and [Status], the constructor of
    [Client] and the class [ClientConfigFile]. *)

(** *** Python helpers of the request builders *)

(** [s.lower()] for a [str] of ASCII characters: the letters A to Z
    are lowered and every other character is left as it is. Python 3
    also lowers letters outside ASCII; this function is not used to say
    anything about them. *)
Definition lower_char (c : ascii) : ascii :=
  let n := nat_of_ascii c in
  if (65 <=? n) && (n <=? 90) then ascii_of_nat (n + 32) else c.

Definition lower (s : str) : str := map lower_char s.

(** [a == b] on [str]. *)
Definition str_eqb (a b : str) : bool :=
  if list_eq_dec ascii_dec a b then true else false.

(** [isinstance(v, bool)]. *)
Definition is_bool (v : value) : bool :=
  match v with
  | PBool _ => true
  | _ => false
  end.

(** A dict: its keys in insertion order, each with its value. *)
Abbreviation dict := (list (str * value)) (only parsing).

(** [d[key] = v]: the value of an existing key is replaced where it is,
    a new key goes to the end. *)
Fixpoint setitem (key : str) (v : value) (d : dict) : dict :=
  match d with
  | [] => [(key, v)]
  | (k, x) :: d' =>
      if str_eqb k key then (k, v) :: d' else (k, x) :: setitem key v d'
  end.

(** A dict display [{k1: v1, k2: v2, ...}]. *)
Definition display (pairs : list (str * value)) : dict :=
  fold_left (fun d kv => setitem (fst kv) (snd kv) d) pairs [].

(** [d.update(other)] with a dict [other]. *)
Definition update (d other : dict) : dict :=
  fold_left (fun d kv => setitem (fst kv) (snd kv) d) other d.

(** [key in d] and [d[key]] on a table from [str] to [str]. *)
Fixpoint table_get (key : str) (table : list (str * str)) : option str :=
  match table with
  | [] => None
  | (k, v) :: table' => if str_eqb k key then Some v else table_get key table'
  end.

(** A parameter that holds [None] or a dict, tested as in
    [if not filters:]. *)
Definition truthy_dict (d : option dict) : bool :=
  match d with
  | Some (_ :: _) => true
  | _ => false
  end.

(** ['{}'.format(name)] for a name that holds a [str]. *)
Definition format_name (name : option str) : str :=
  match name with
  | Some n => n
  | None => text "None"
  end.

(** The requests that went out, oldest first. *)
Definition requests (w : World) : list (Session * RequestArgs) :=
  flat_map (fun ev => match ev with
                      | SessionPost session args => [(session, args)]
                      | SessionClose => []
                      end) (wire w).

(** A call started in [w] led to [w'] by sending one request, this one. *)
Definition sent (w w' : World) (session : Session) (args : RequestArgs)
  : Prop :=
  requests w' = requests w ++ [(session, args)].

(** The header by which the session names the HTTP method. *)
Definition method_override (session : Session) : option str :=
  table_get (text "X-HTTP-Method-Override") (headers session).

(** Whether the strings of a list differ from one another. *)
Fixpoint distinct (names : list str) : bool :=
  match names with
  | [] => true
  | n :: names' => negb (existsb (str_eqb n) names') && distinct names'
  end.

(** *** class [Objects] *)

Module Objects.

Definition base_url_path : str := text "/v1/objects".

(** The table of [_convert_object_type]. *)
Definition type_conv : list (str * str) :=
  [ (text "ApiListener", text "apilisteners");
    (text "ApiUser", text "apiusers");
    (text "CheckCommand", text "checkcommands");
    (text "Arguments", text "argumentss");
    (text "CheckerComponent", text "checkercomponents");
    (text "CheckResultReader", text "checkresultreaders");
    (text "Comment", text "comments");
    (text "CompatLogger", text "compatloggers");
    (text "Dependency", text "dependencys");
    (text "Downtime", text "downtimes");
    (text "Endpoint", text "endpoints");
    (text "EventCommand", text "eventcommands");
    (text "ExternalCommandListener", text "externalcommandlisteners");
    (text "FileLogger", text "fileloggers");
    (text "GelfWriter", text "gelfwriters");
    (text "GraphiteWriter", text "graphitewriters");
    (text "Host", text "hosts");
    (text "HostGroup", text "hostgroups");
    (text "IcingaApplication", text "icingaapplications");
    (text "IdoMySqlConnection", text "idomysqlconnections");
    (text "IdoPgSqlConnection", text "idopgsqlconnections");
    (text "LiveStatusListener", text "livestatuslisteners");
    (text "Notification", text "notifications");
    (text "NotificationCommand", text "notificationcommands");
    (text "NotificationComponent", text "notificationcomponents");
    (text "OpenTsdbWriter", text "opentsdbwriters");
    (text "PerfdataWriter", text "perfdatawriters");
    (text "ScheduledDowntime", text "scheduleddowntimes");
    (text "Service", text "services");
    (text "ServiceGroup", text "servicegroups");
    (text "StatusDataWriter", text "statusdatawriters");
    (text "SyslogLogger", text "syslogloggers");
    (text "TimePeriod", text "timeperiods");
    (text "User", text "users");
    (text "UserGroup", text "usergroups");
    (text "Zone", text "zones") ].

Definition no_such_type (object_type : str) : str :=
  text "Icinga 2 object type " ++ [DQUOTE] ++ object_type ++ [DQUOTE]
  ++ text " does not exist.".

(** [Objects._convert_object_type]. *)
Definition _convert_object_type (object_type : str) : exn + str :=
  match table_get object_type type_conv with
  | None => inl (Icinga2ApiException (no_such_type object_type))
  | Some url_segment => inr url_segment
  end.

Section Methods.

Variable urljoin : str -> str -> str.
Variable session_post : Session -> RequestArgs -> option Response.

(** [Objects.create]. *)
Definition create (object_type name : str) (templates attrs : value)
  (w : World) : (exn + value) * World :=
  match _convert_object_type object_type with
  | inl e => (inl e, w)
  | inr object_type_url_path =>
      let payload := [] in
      let payload :=
        if truthy attrs then setitem (text "attrs") attrs payload
        else payload in
      let payload :=
        if truthy templates then setitem (text "templates") templates payload
        else payload in
      let url_path :=
        base_url_path ++ text "/" ++ object_type_url_path
        ++ text "/" ++ name in
      _request urljoin session_post (text "PUT") url_path (PDict payload) w
  end.

(** [Objects.update]. *)
Definition update (object_type name : str) (attrs : value) (w : World)
  : (exn + value) * World :=
  match _convert_object_type object_type with
  | inl e => (inl e, w)
  | inr object_type_url_path =>
      let url_path :=
        base_url_path ++ text "/" ++ object_type_url_path
        ++ text "/" ++ name in
      _request urljoin session_post (text "POST") url_path attrs w
  end.

(** [Objects.delete]. *)
Definition delete (object_type : str) (name : option str)
  (filters cascade : value) (w : World) : (exn + value) * World :=
  match _convert_object_type object_type with
  | inl e => (inl e, w)
  | inr object_type_url_path =>
      let payload := [] in
      let payload :=
        if truthy filters then setitem (text "filter") filters payload
        else payload in
      let payload :=
        if truthy cascade then setitem (text "cascade") (PInt 1) payload
        else payload in
      let url := base_url_path ++ text "/" ++ object_type_url_path in
      let url :=
        if truthy_attr name then url ++ text "/" ++ format_name name
        else url in
      _request urljoin session_post (text "DELETE") url (PDict payload) w
  end.

(** [Objects.list]. *)
Definition list (object_type : str) (name : option str)
  (attrs filters joins : value) (w : World) : (exn + value) * World :=
  match _convert_object_type object_type with
  | inl e => (inl e, w)
  | inr object_type_url_path =>
      let url_path := base_url_path ++ text "/" ++ object_type_url_path in
      let url_path :=
        if truthy_attr name then url_path ++ text "/" ++ format_name name
        else url_path in
      let payload := [] in
      let payload :=
        if truthy attrs then setitem (text "attrs") attrs payload
        else payload in
      let payload :=
        if truthy filters then setitem (text "filter") filters payload
        else payload in
      let payload :=
        if is_bool joins && truthy joins
        then setitem (text "all_joins") (PStr (text "1")) payload
        else if truthy joins then setitem (text "joins") joins payload
        else payload in
      _request urljoin session_post (text "GET") url_path (PDict payload) w
  end.

End Methods.

End Objects.

(** *** class [Actions] *)

Module Actions.

Definition base_url_path : str := text "/v1/actions".

Definition bad_object_type : str :=
  text "object_type needs to be " ++ [DQUOTE] ++ text "Host" ++ [DQUOTE]
  ++ text " or " ++ [DQUOTE] ++ text "Service" ++ [DQUOTE] ++ text ".".

Definition no_filters : str := text "filters is empty or none".

Definition no_name_no_filters : str :=
  text "name and filters is empty or none".

Section Methods.

Variable urljoin : str -> str -> str.
Variable session_post : Session -> RequestArgs -> option Response.

(** [Actions.process_check_result]. *)
Definition process_check_result (object_type : str)
  (name exit_status plugin_output : value)
  (performance_data check_command check_source : value) (w : World)
  : (exn + value) * World :=
  if negb (str_eqb object_type (text "Host")
           || str_eqb object_type (text "Service"))
  then (inl (Icinga2ApiException bad_object_type), w)
  else
    let url := base_url_path ++ text "/" ++ text "process-check-result" in
    let payload :=
      display [ (lower object_type, name);
                (text "exit_status", exit_status);
                (text "plugin_output", plugin_output) ] in
    let payload :=
      if truthy performance_data
      then setitem (text "performance_data") performance_data payload
      else payload in
    let payload :=
      if truthy check_command
      then setitem (text "check_command") check_command payload
      else payload in
    let payload :=
      if truthy check_source
      then setitem (text "check_source") check_source payload
      else payload in
    _request urljoin session_post (text "POST") url (PDict payload) w.

(** [Actions.reschedule_check]. *)
Definition reschedule_check (filters : option dict)
  (next_check force_check : value) (w : World) : (exn + value) * World :=
  if negb (truthy_dict filters)
  then (inl (Icinga2ApiException no_filters), w)
  else
    let url := base_url_path ++ text "/" ++ text "reschedule-check" in
    let payload := display [ (text "force_check", force_check) ] in
    let payload :=
      if truthy next_check
      then setitem (text "next_check") next_check payload
      else payload in
    let payload :=
      update payload (match filters with Some f => f | None => [] end) in
    _request urljoin session_post (text "POST") url (PDict payload) w.

(** [Actions.send_custom_notification]. *)
Definition send_custom_notification (filters : option dict)
  (author comment force : value) (w : World) : (exn + value) * World :=
  if negb (truthy_dict filters)
  then (inl (Icinga2ApiException no_filters), w)
  else
    let url :=
      base_url_path ++ text "/" ++ text "send-custom-notification" in
    let payload :=
      display [ (text "author", author);
                (text "comment", comment);
                (text "force", force) ] in
    let payload :=
      update payload (match filters with Some f => f | None => [] end) in
    _request urljoin session_post (text "POST") url (PDict payload) w.

(** [Actions.delay_notification]. *)
Definition delay_notification (filters : option dict) (timestamp : value)
  (w : World) : (exn + value) * World :=
  if negb (truthy_dict filters)
  then (inl (Icinga2ApiException no_filters), w)
  else
    let url := base_url_path ++ text "/" ++ text "delay-notification" in
    let payload := display [ (text "timestamp", timestamp) ] in
    let payload :=
      update payload (match filters with Some f => f | None => [] end) in
    _request urljoin session_post (text "POST") url (PDict payload) w.

(** [Actions.acknowledge_problem]. *)
Definition acknowledge_problem (object_type filters author comment : value)
  (expiry sticky notify : value) (w : World) : (exn + value) * World :=
  let url := base_url_path ++ text "/" ++ text "acknowledge-problem" in
  let payload :=
    display [ (text "type", object_type);
              (text "filter", filters);
              (text "author", author);
              (text "comment", comment) ] in
  let payload :=
    if truthy expiry then setitem (text "expiry") expiry payload
    else payload in
  let payload :=
    if truthy sticky then setitem (text "sticky") sticky payload
    else payload in
  let payload :=
    if truthy notify then setitem (text "notify") notify payload
    else payload in
  _request urljoin session_post (text "POST") url (PDict payload) w.

(** [Actions.remove_acknowledgement]. *)
Definition remove_acknowledgement (object_type filters : value) (w : World)
  : (exn + value) * World :=
  let url := base_url_path ++ text "/" ++ text "remove-acknowledgement" in
  let payload :=
    display [ (text "type", object_type); (text "filter", filters) ] in
  _request urljoin session_post (text "POST") url (PDict payload) w.

(** [Actions.add_comment]. *)
Definition add_comment (object_type filters author comment : value)
  (w : World) : (exn + value) * World :=
  let url := base_url_path ++ text "/" ++ text "add-comment" in
  let payload :=
    display [ (text "type", object_type);
              (text "filter", filters);
              (text "author", author);
              (text "comment", comment) ] in
  _request urljoin session_post (text "POST") url (PDict payload) w.

(** [Actions.remove_comment]. *)
Definition remove_comment (object_type : str) (name filters : value)
  (w : World) : (exn + value) * World :=
  let url := base_url_path ++ text "/" ++ text "remove-comment" in
  let payload := display [ (text "type", PStr object_type) ] in
  let payload :=
    if truthy name then setitem (lower object_type) name payload
    else payload in
  let payload :=
    if truthy filters then setitem (text "filter") filters payload
    else payload in
  _request urljoin session_post (text "POST") url (PDict payload) w.

(** [Actions.schedule_downtime]. *)
Definition schedule_downtime (object_type filters author comment : value)
  (start_time end_time duration fixed trigger_name : value) (w : World)
  : (exn + value) * World :=
  let url := base_url_path ++ text "/" ++ text "schedule-downtime" in
  let payload :=
    display [ (text "type", object_type);
              (text "filter", filters);
              (text "author", author);
              (text "comment", comment);
              (text "start_time", start_time);
              (text "end_time", end_time);
              (text "duration", duration) ] in
  let payload :=
    if truthy fixed then setitem (text "fixed") fixed payload
    else payload in
  let payload :=
    if truthy trigger_name
    then setitem (text "trigger_name") trigger_name payload
    else payload in
  _request urljoin session_post (text "POST") url (PDict payload) w.

(** [Actions.remove_downtime]. *)
Definition remove_downtime (object_type : str) (name filters : value)
  (w : World) : (exn + value) * World :=
  if negb (truthy name) && negb (truthy filters)
  then (inl (Icinga2ApiException no_name_no_filters), w)
  else
    let url := base_url_path ++ text "/" ++ text "remove-downtime" in
    let payload := display [ (text "type", PStr object_type) ] in
    let payload :=
      if truthy name then setitem (lower object_type) name payload
      else payload in
    let payload :=
      if truthy filters then setitem (text "filter") filters payload
      else payload in
    _request urljoin session_post (text "POST") url (PDict payload) w.

(** [Actions.shutdown_process] and [Actions.restart_process]. *)
Definition shutdown_process (w : World) : (exn + value) * World :=
  let url := base_url_path ++ text "/" ++ text "shutdown-process" in
  _request urljoin session_post (text "POST") url PNone w.

Definition restart_process (w : World) : (exn + value) * World :=
  let url := base_url_path ++ text "/" ++ text "restart-process" in
  _request urljoin session_post (text "POST") url PNone w.

End Methods.

End Actions.

(** *** class [Status] *)

Module Status.

Definition base_url_path : str := text "/v1/status".

Section Methods.

Variable urljoin : str -> str -> str.
Variable session_post : Session -> RequestArgs -> option Response.

(** [Status.list]. *)
Definition list (component : option str) (w : World)
  : (exn + value) * World :=
  let url := base_url_path in
  let url :=
    if truthy_attr component then url ++ text "/" ++ format_name component
    else url in
  _request urljoin session_post (text "GET") url PNone w.

End Methods.

End Status.

(** *** class [ClientConfigFile] and the constructor of [Client] *)

(** What [cfg.get(section, option)] does: it returns the value, raises
    [NoOptionError], which [parse] catches, or raises another exception
    of [configparser] (a failed interpolation, for one), which [parse]
    lets through. *)
Inductive got : Type :=
| Value (v : str)
| NoOptionError
| GetError.

(** What [configparser] knows after [cfg.read(file_name)] has returned:
    the sections there are, and what [cfg.get] does. *)
Record ConfigParser : Type := {
  has_section : str -> bool;
  get : str -> str -> got
}.

(** The files, as [os.path.exists], [os.access(_, os.R_OK)] and
    [cfg.read] find them; [cfg.read] gives [None] when it raises (a file
    that does not parse, as one without section header). *)
Record FileSystem : Type := {
  path_exists : str -> bool;
  access_R_OK : str -> bool;
  read : str -> option ConfigParser
}.

(** An instance of [ClientConfigFile]. *)
Record ClientConfigFile : Type := {
  file_name : str;
  section : str;
  file_url : option str;
  file_username : option str;
  file_password : option str;
  file_certificate : option str;
  file_key : option str;
  file_ca_certificate : option str;
  file_timeout : option str
}.

Definition file_missing (file_name : str) : str :=
  text "Config file " ++ [DQUOTE] ++ file_name ++ [DQUOTE]
  ++ text " doesn't exist.".

Definition file_unreadable (file_name : str) : str :=
  text "No read access for config file " ++ [DQUOTE] ++ file_name
  ++ [DQUOTE] ++ text "." ++ [LF].

Definition section_missing (section : str) : str :=
  text "Config file is missing " ++ [DQUOTE] ++ section ++ [DQUOTE]
  ++ text " section.".

(** What [Client.__init__] can raise: an exception of the module, the
    [UnboundLocalError] of a local variable read before it is set, or an
    exception that [configparser] raises in [cfg.read] or [cfg.get] and
    nothing catches. *)
Inductive init_error : Type :=
| UnboundLocalError
| ParserError
| Raised (e : exn).

Definition no_url : str :=
  text "No " ++ [DQUOTE] ++ text "url" ++ [DQUOTE] ++ text " defined.".

Section Files.

Variable fs : FileSystem.

(** [s.strip()]. *)
Variable strip : str -> str.

(** [icinga2api.__version__]. *)
Variable package_version : str.

(** [ClientConfigFile._check_file_access]. *)
Definition _check_file_access (file_name : str) : exn + bool :=
  if negb (path_exists fs file_name)
  then inl (Icinga2ApiConfigFileException (file_missing file_name))
  else if negb (access_R_OK fs file_name)
  then inl (Icinga2ApiConfigFileException (file_unreadable file_name))
  else inr true.

(** [ClientConfigFile.__init__]. *)
Definition ClientConfigFile__init__ (file_name : str)
  : exn + ClientConfigFile :=
  match _check_file_access file_name with
  | inl e => inl e
  | inr _ =>
      inr {| file_name := file_name;
             section := text "api";
             file_url := None;
             file_username := None;
             file_password := None;
             file_certificate := None;
             file_key := None;
             file_ca_certificate := None;
             file_timeout := None |}
  end.

(** One [try: self.x = cfg.get(section, name).strip()
    except NoOptionError: pass] of [parse]. *)
Definition get_or_keep (cfg : ConfigParser) (section name : str)
  (old : option str) : init_error + option str :=
  match get cfg section name with
  | Value v => inr (Some (strip v))
  | NoOptionError => inr old
  | GetError => inl ParserError
  end.

(** [ClientConfigFile.parse]: the object after the call. An option that
    is not in the section leaves the attribute as it is. *)
Definition parse (this : ClientConfigFile)
  : init_error + ClientConfigFile :=
  match read fs (file_name this) with
  | None => inl ParserError
  | Some cfg =>
  if negb (has_section cfg (section this))
  then inl (Raised (Icinga2ApiConfigFileException
                      (section_missing (section this))))
  else
  match get_or_keep cfg (section this) (text "url") (file_url this) with
  | inl e => inl e
  | inr url' =>
  match get_or_keep cfg (section this) (text "username")
                    (file_username this) with
  | inl e => inl e
  | inr username' =>
  match get_or_keep cfg (section this) (text "password")
                    (file_password this) with
  | inl e => inl e
  | inr password' =>
  match get_or_keep cfg (section this) (text "certificate")
                    (file_certificate this) with
  | inl e => inl e
  | inr certificate' =>
  match get_or_keep cfg (section this) (text "key") (file_key this) with
  | inl e => inl e
  | inr key' =>
  match get_or_keep cfg (section this) (text "ca_certificate")
                    (file_ca_certificate this) with
  | inl e => inl e
  | inr ca_certificate' =>
  match get_or_keep cfg (section this) (text "timeout")
                    (file_timeout this) with
  | inl e => inl e
  | inr timeout' =>
      inr {| file_name := file_name this;
             section := section this;
             file_url := url';
             file_username := username';
             file_password := password';
             file_certificate := certificate';
             file_key := key';
             file_ca_certificate := ca_certificate';
             file_timeout := timeout' |}
  end end end end end end end
  end.

(** [argument or config_from_file.attribute], where [config_from_file]
    is set only when a config file was given. *)
Definition or_from_file (argument : option str)
  (config_from_file : option ClientConfigFile)
  (attribute : ClientConfigFile -> option str) : init_error + option str :=
  if truthy_attr argument then inr argument
  else
    match config_from_file with
    | None => inl UnboundLocalError
    | Some config => inr (attribute config)
    end.

(** The assignments of [Client.__init__] (lines 200 to 218) and its check
    of the URL. *)
Definition Client_attributes
  (url username password timeout certificate key ca_certificate : option str)
  (config_from_file : option ClientConfigFile) : init_error + Client :=
  match or_from_file url config_from_file file_url with
  | inl e => inl e
  | inr url' =>
  match or_from_file username config_from_file file_username with
  | inl e => inl e
  | inr username' =>
  match or_from_file password config_from_file file_password with
  | inl e => inl e
  | inr password' =>
  match or_from_file timeout config_from_file file_timeout with
  | inl e => inl e
  | inr timeout' =>
  match or_from_file certificate config_from_file file_certificate with
  | inl e => inl e
  | inr certificate' =>
  match or_from_file key config_from_file file_key with
  | inl e => inl e
  | inr key' =>
  match or_from_file ca_certificate config_from_file file_ca_certificate with
  | inl e => inl e
  | inr ca_certificate' =>
      match url' with
      | Some (c :: rest) =>
          inr {| url := c :: rest;
                 username := username';
                 password := password';
                 timeout := timeout';
                 certificate := certificate';
                 key := key';
                 ca_certificate := ca_certificate';
                 version := package_version |}
      | _ => inl (Raised (Icinga2ApiException no_url))
      end
  end end end end end end end.

(** [Client.__init__], every argument holding [None] or a [str]. *)
Definition Client__init__
  (url username password timeout certificate key ca_certificate : option str)
  (config_file : option str) : init_error + Client :=
  if truthy_attr config_file
  then
    match ClientConfigFile__init__
            (match config_file with Some f => f | None => [] end) with
    | inl e => inl (Raised e)
    | inr config_from_file =>
        match parse config_from_file with
        | inl e => inl e
        | inr config_from_file =>
            Client_attributes url username password timeout certificate key
                              ca_certificate (Some config_from_file)
        end
    end
  else
    Client_attributes url username password timeout certificate key
                      ca_certificate None.

End Files.

(** The four objects that [Client.__init__] hangs on the client, each an
    instance of a subclass of [Base]. *)
Definition objects (manager : Client) : Base := __init__ manager.
Definition actions (manager : Client) : Base := __init__ manager.
Definition events (manager : Client) : Base := __init__ manager.
Definition status (manager : Client) : Base := __init__ manager.

(** The options that [parse] asks the section for, in its order. *)
Definition config_options : list str :=
  [ text "url"; text "username"; text "password"; text "certificate";
    text "key"; text "ca_certificate"; text "timeout" ].

(** Files to run the constructor on: one config file, whose section
    [api] gives a URL and a user name; a file without section header,
    which [cfg.read] refuses; and a file whose password cannot be
    interpolated. *)
Definition example_config : ConfigParser :=
  {| has_section := fun name => str_eqb name (text "api");
     get := fun name option =>
       if str_eqb option (text "url")
       then Value (text "https://icinga:5665")
       else if str_eqb option (text "username")
       then Value (text "monitor")
       else NoOptionError |}.

Definition percent_config : ConfigParser :=
  {| has_section := fun name => str_eqb name (text "api");
     get := fun name option =>
       if str_eqb option (text "url")
       then Value (text "https://icinga:5665")
       else if str_eqb option (text "password")
       then GetError
       else NoOptionError |}.

Definition example_files : FileSystem :=
  {| path_exists := fun name =>
       str_eqb name (text "/etc/icinga2api.ini")
       || str_eqb name (text "headless.ini")
       || str_eqb name (text "percent.ini");
     access_R_OK := fun name =>
       str_eqb name (text "/etc/icinga2api.ini")
       || str_eqb name (text "headless.ini")
       || str_eqb name (text "percent.ini");
     read := fun name =>
       if str_eqb name (text "headless.ini") then None
       else if str_eqb name (text "percent.ini") then Some percent_config
       else Some example_config |}.

End client.

Import Py Gen client.

(** * Facts about [str] *)

Section StrFacts.

Lemma startswith_nil (s : str) : startswith s [] = true.
Proof. now destruct s. Qed.

Lemma startswith_iff (s p : str) :
  startswith s p = true <-> exists v, s = p ++ v.
Proof.
  revert s. induction p as [|a p IH]; intros s.
  - split; [intros _; exists s; reflexivity | intros _; now destruct s].
  - destruct s as [|c s]; cbn [startswith].
    + split; [discriminate | intros [v H]; discriminate H].
    + rewrite andb_true_iff, Ascii.eqb_eq, IH. split.
      * intros [-> [v ->]]. exists v. reflexivity.
      * intros [v H]. injection H as -> ->. split; [reflexivity | now exists v].
Qed.

Lemma startswith_prefix (p v : str) : startswith (p ++ v) p = true.
Proof. apply startswith_iff. now exists v. Qed.

Lemma startswith_app (s p t : str) :
  length p <= length s -> startswith (s ++ t) p = startswith s p.
Proof.
  revert s. induction p as [|a p IH]; intros s Hlen;
    [now rewrite !startswith_nil|].
  destruct s as [|c s]; cbn [length] in Hlen; [lia|].
  cbn [startswith app]. rewrite IH by lia. reflexivity.
Qed.

Lemma skipn_prefix (p v : str) : skipn (length p) (p ++ v) = v.
Proof. induction p; [reflexivity | assumption]. Qed.

Lemma startswith_skipn (s p : str) :
  startswith s p = true -> s = p ++ skipn (length p) s.
Proof.
  intros H. apply startswith_iff in H. destruct H as [v ->].
  now rewrite skipn_prefix.
Qed.

Lemma partition_Some (s sep before after : str) :
  partition s sep = Some (before, after) -> s = before ++ sep ++ after.
Proof.
  revert before after. induction s as [|c s IH]; intros before after;
    cbn [partition]; destruct (startswith _ sep) eqn:E.
  - intros H. injection H as <- <-. now apply startswith_skipn.
  - discriminate.
  - intros H. injection H as <- <-. now apply startswith_skipn.
  - destruct (partition s sep) as [[b a]|] eqn:P; [|discriminate].
    intros H. injection H as <- <-.
    rewrite (IH b a eq_refl) at 1. reflexivity.
Qed.

Lemma partition_at_start (s sep : str) :
  startswith s sep = true ->
  partition s sep = Some ([], skipn (length sep) s).
Proof. intros H. destruct s; cbn [partition]; now rewrite H. Qed.

Lemma partition_found (s sep : str) :
  occurs sep s -> partition s sep <> None.
Proof.
  intros [u [v ->]]. induction u as [|c u IH].
  - cbn [app]. rewrite partition_at_start by apply startswith_prefix.
    discriminate.
  - cbn [app partition].
    destruct (startswith (c :: u ++ sep ++ v) sep); [discriminate|].
    destruct (partition (u ++ sep ++ v) sep) as [[b a]|]; [discriminate|].
    exact IH.
Qed.

Lemma partition_None (s sep : str) :
  partition s sep = None <-> ~ occurs sep s.
Proof.
  split.
  - intros H Hocc. now apply partition_found in Hocc.
  - intros H. destruct (partition s sep) as [[b a]|] eqn:P; [|reflexivity].
    exfalso. apply H. exists b, a. now apply partition_Some.
Qed.

Lemma partition_before (s sep before after : str) :
  sep <> [] -> partition s sep = Some (before, after) ->
  ~ occurs sep before.
Proof.
  intros Hsep. revert before after.
  induction s as [|c s IH]; intros before after;
    cbn [partition]; destruct (startswith _ sep) eqn:E.
  - intros H. injection H as <- <-. intros [u [v H]].
    destruct u, sep; try discriminate H. now apply Hsep.
  - discriminate.
  - intros H. injection H as <- <-. intros [u [v H]].
    destruct u, sep; try discriminate H. now apply Hsep.
  - destruct (partition s sep) as [[b a]|] eqn:P; [|discriminate].
    intros H. injection H as <- <-. intros [u [v H]].
    destruct u as [|x u].
    + cbn [app] in H.
      apply partition_Some in P. rewrite P in E.
      assert (startswith (c :: b ++ sep ++ a) sep = true) as E'.
      { apply startswith_iff. exists (v ++ sep ++ a).
        change (c :: b ++ sep ++ a) with ((c :: b) ++ sep ++ a).
        rewrite H, <- app_assoc. reflexivity. }
      congruence.
    + injection H as _ H. apply (IH b a eq_refl). now exists u, v.
Qed.

Lemma partition_app (s sep before after t : str) :
  partition s sep = Some (before, after) ->
  partition (s ++ t) sep = Some (before, after ++ t).
Proof.
  revert before after. induction s as [|c s IH]; intros before after.
  - cbn [partition]. destruct (startswith [] sep) eqn:E; [|discriminate].
    intros H. injection H as <- <-.
    destruct sep; [|discriminate E]. destruct t; reflexivity.
  - intros H. pose proof (partition_length _ _ H) as Hlen.
    revert H. cbn [partition app].
    change (c :: s ++ t) with ((c :: s) ++ t).
    rewrite startswith_app by lia.
    destruct (startswith (c :: s) sep) eqn:E.
    + intros H. injection H as <- <-.
      apply startswith_iff in E. destruct E as [v E]. rewrite E.
      rewrite <- app_assoc, !skipn_prefix. reflexivity.
    + destruct (partition s sep) as [[b a]|] eqn:P; [|discriminate].
      cbn [app]. rewrite (IH b a eq_refl).
      intros H. injection H as <- <-. reflexivity.
Qed.

Lemma split_loop_eq (s : str) (c : ascii) (sep : str) :
  split_loop s c sep =
  match partition s (c :: sep) with
  | None => [s]
  | Some (before, after) => before :: split_loop after c sep
  end.
Proof.
  funelim (split_loop s c sep);
    match goal with P : partition _ _ = _ |- _ => rewrite P end;
    reflexivity.
Qed.

Lemma count_loop_eq (s : str) (c : ascii) (sep : str) :
  count_loop s c sep =
  match partition s (c :: sep) with
  | None => 0
  | Some (before, after) => S (count_loop after c sep)
  end.
Proof.
  funelim (count_loop s c sep);
    match goal with P : partition _ _ = _ |- _ => rewrite P end;
    reflexivity.
Qed.

End StrFacts.

(** * Facts about [split] and [count] *)

Section SplitFacts.

Variable c : ascii.
Variable sep : str.

Let delimiter : str := c :: sep.

(** Induction along the occurrences that [split] finds. *)
Lemma split_ind (P : str -> Prop) :
  (forall s, partition s delimiter = None -> P s) ->
  (forall s before after,
      partition s delimiter = Some (before, after) -> P after -> P s) ->
  forall s, P s.
Proof.
  intros Hnone Hsome s.
  remember (length s) as n eqn:Hn. revert s Hn.
  induction n as [n IH] using lt_wf_ind. intros s ->.
  destruct (partition s delimiter) as [[b a]|] eqn:E.
  - apply (Hsome s b a E). apply (IH (length a)); [|reflexivity].
    apply partition_length in E. subst delimiter. cbn [length] in E. lia.
  - now apply Hnone.
Qed.

Lemma split_loop_nonempty (s : str) : split_loop s c sep <> [].
Proof.
  rewrite split_loop_eq.
  destruct (partition s (c :: sep)) as [[b a]|]; discriminate.
Qed.

Lemma all_but_last_cons (x : str) (l : list str) :
  l <> [] -> all_but_last (x :: l) = x :: all_but_last l.
Proof. destruct l; [contradiction | reflexivity]. Qed.

Lemma last_item_cons (x : str) (l : list str) :
  l <> [] -> last_item (x :: l) = last_item l.
Proof. destruct l; [contradiction | reflexivity]. Qed.

Lemma split_loop_length (s : str) :
  length (split_loop s c sep) = S (count_loop s c sep).
Proof.
  induction s as [s E | s b a E IH] using split_ind;
    rewrite split_loop_eq, count_loop_eq; fold delimiter; rewrite E.
  - reflexivity.
  - cbn [length]. now rewrite IH.
Qed.

Lemma split_loop_app (s t : str) :
  split_loop (s ++ t) c sep =
  all_but_last (split_loop s c sep)
  ++ split_loop (last_item (split_loop s c sep) ++ t) c sep.
Proof.
  induction s as [s E | s b a E IH] using split_ind;
    rewrite (split_loop_eq s); fold delimiter; rewrite E.
  - reflexivity.
  - rewrite all_but_last_cons, last_item_cons by apply split_loop_nonempty.
    rewrite (split_loop_eq (s ++ t)). fold delimiter.
    rewrite (partition_app _ _ t E), IH. reflexivity.
Qed.

Lemma split_loop_rejoin (s : str) :
  rejoin delimiter (all_but_last (split_loop s c sep))
  ++ last_item (split_loop s c sep) = s.
Proof.
  induction s as [s E | s b a E IH] using split_ind;
    rewrite (split_loop_eq s); fold delimiter; rewrite E.
  - reflexivity.
  - rewrite all_but_last_cons, last_item_cons by apply split_loop_nonempty.
    unfold rejoin in *. cbn [map concat]. rewrite <- !app_assoc, IH.
    symmetry. now apply partition_Some.
Qed.

Lemma split_loop_last (s : str) :
  ~ occurs delimiter (last_item (split_loop s c sep)).
Proof.
  induction s as [s E | s b a E IH] using split_ind;
    rewrite (split_loop_eq s); fold delimiter; rewrite E.
  - now apply partition_None.
  - now rewrite last_item_cons by apply split_loop_nonempty.
Qed.

Lemma split_loop_pieces (s : str) :
  Forall (fun piece => ~ occurs delimiter piece) (split_loop s c sep).
Proof.
  induction s as [s E | s b a E IH] using split_ind;
    rewrite (split_loop_eq s); fold delimiter; rewrite E.
  - constructor; [now apply partition_None | constructor].
  - constructor; [|exact IH].
    eapply partition_before; [|exact E]. discriminate.
Qed.

Lemma split_loop_none (s : str) :
  ~ occurs delimiter s <-> split_loop s c sep = [s].
Proof.
  rewrite <- partition_None, split_loop_eq. fold delimiter.
  destruct (partition s delimiter) as [[b a]|] eqn:E.
  - split; [discriminate|]. intros H. exfalso.
    injection H as -> H. now apply split_loop_nonempty in H.
  - split; reflexivity.
Qed.

Lemma split_loop_two (s : str) :
  2 <= length (split_loop s c sep) <-> occurs delimiter s.
Proof.
  rewrite split_loop_eq. fold delimiter.
  destruct (partition s delimiter) as [[b a]|] eqn:E.
  - split.
    + intros _. exists b, a. now apply partition_Some.
    + intros _. cbn [length].
      pose proof (split_loop_length a). lia.
  - apply partition_None in E. cbn [length]. split; [lia | contradiction].
Qed.

Lemma count_loop_zero (s : str) :
  count_loop s c sep = 0 <-> ~ occurs delimiter s.
Proof.
  rewrite <- partition_None, count_loop_eq. fold delimiter.
  destruct (partition s delimiter) as [[b a]|]; split;
    try discriminate; reflexivity.
Qed.

Lemma count_loop_one (s : str) :
  count_loop s c sep = 1 ->
  exists before after,
    s = before ++ delimiter ++ after /\
    split_loop s c sep = [before; after].
Proof.
  rewrite count_loop_eq, (split_loop_eq s). fold delimiter.
  destruct (partition s delimiter) as [[b a]|] eqn:E; [|discriminate].
  intros H. injection H as H. exists b, a. split.
  - now apply partition_Some.
  - apply count_loop_zero, split_loop_none in H. now rewrite H.
Qed.

End SplitFacts.

(** With a delimiter of one character, the count is the number of times
    the character appears, and the delimiter occurs where it appears. *)
Lemma occurs_single (c : ascii) (s : str) : occurs [c] s <-> In c s.
Proof.
  split.
  - intros [u [v ->]]. apply in_or_app. right. now left.
  - intros H. apply in_split in H. destruct H as [u [v ->]]. now exists u, v.
Qed.

Lemma count_single (c : ascii) (s : str) :
  count s [c] = count_occ ascii_dec s c.
Proof.
  cbn [count]. induction s as [|x s IH]; rewrite count_loop_eq.
  - reflexivity.
  - cbn [partition startswith count_occ].
    destruct (ascii_dec x c) as [->|Hne].
    + rewrite Ascii.eqb_refl, startswith_nil. cbn [andb length skipn].
      now rewrite IH.
    + apply Ascii.eqb_neq in Hne. rewrite Hne. cbn [andb].
      rewrite count_loop_eq in IH.
      destruct (partition s [c]) as [[b a]|]; exact IH.
Qed.

(** * Facts about generators and about [fetech_from_stream] *)

Lemma items_and_then_yield_each {S A B : Type} (f : A -> B) (xs : list A)
  (s : S) (k : S -> gen S B) :
  items (and_then (yield_each f xs s) k) = map f xs ++ items (k s).
Proof.
  induction xs as [|x xs IH]; cbn [yield_each and_then items map app].
  - reflexivity.
  - now rewrite IH.
Qed.

Lemma items_for_in_yield_each {S A B : Type} (f : A -> B)
  (g : gen S (list A)) :
  items (for_in g (fun xs => yield_each f xs)) = map f (concat (items g)).
Proof.
  induction g as [xs s resume IH | s | e s]; cbn [for_in items concat map].
  - rewrite items_and_then_yield_each, map_app, IH. reflexivity.
  - reflexivity.
  - reflexivity.
Qed.

Lemma last_item_nth (lines : list str) :
  last_item lines = nth (length lines - 1) lines [].
Proof.
  unfold last_item. induction lines as [|x l IH]; [reflexivity|].
  destruct l as [|y l]; [reflexivity|].
  change (last (x :: y :: l) []) with (last (y :: l) []).
  rewrite IH. cbn [length Nat.sub nth]. now rewrite Nat.sub_0_r.
Qed.

Lemma all_but_last_firstn (lines : list str) :
  all_but_last lines = firstn (length lines - 1) lines.
Proof.
  unfold all_but_last. rewrite removelast_firstn_len.
  now rewrite Nat.sub_1_r.
Qed.

Lemma Forall_all_but_last (P : str -> Prop) (lines : list str) :
  Forall P lines -> Forall P (all_but_last lines).
Proof.
  unfold all_but_last. induction 1 as [|x l Hx Hl IH]; [constructor|].
  destruct l as [|y l]; [constructor|].
  change (removelast (x :: y :: l)) with (x :: removelast (y :: l)).
  now constructor.
Qed.

Lemma last_app_nonempty (front back : list str) (d : str) :
  back <> [] -> last (front ++ back) d = last back d.
Proof.
  intros Hne. induction front as [|x front IH]; [reflexivity|].
  cbn [app]. rewrite <- IH. destruct (front ++ back) eqn:E; [|reflexivity].
  apply app_eq_nil in E. destruct E as [_ E]. contradiction.
Qed.

Lemma not_occurs_nil (c : ascii) (sep : str) : ~ occurs (c :: sep) [].
Proof. intros [[|x u] [v H]]; discriminate H. Qed.

Section FeedFacts.

Variable c : ascii.
Variable sep : str.

Let delimiter : str := c :: sep.

(** A turn of the loop with a non-empty delimiter, by the number of
    pieces of the buffer. *)
Lemma feed_emit (chunk : str) (w : World) :
  occurs delimiter (stream_cache (self w) ++ chunk) ->
  feed chunk delimiter w =
  (inr (Some (all_but_last
                (split_loop (stream_cache (self w) ++ chunk) c sep))),
   set_cache w (last_item
                  (split_loop (stream_cache (self w) ++ chunk) c sep))).
Proof.
  intros H. apply split_loop_two in H. apply Nat.leb_le in H.
  unfold feed. cbn [set_cache self stream_cache split]. fold delimiter.
  unfold delimiter at 1. cbn [split]. rewrite H. reflexivity.
Qed.

Lemma feed_quiet (chunk : str) (w : World) :
  ~ occurs delimiter (stream_cache (self w) ++ chunk) ->
  feed chunk delimiter w =
  (inr None, set_cache w (stream_cache (self w) ++ chunk)).
Proof.
  intros H. apply split_loop_none in H.
  unfold feed, delimiter. cbn [set_cache self stream_cache split].
  rewrite H. reflexivity.
Qed.

Lemma occurs_dec (s : str) : occurs delimiter s \/ ~ occurs delimiter s.
Proof.
  destruct (partition s delimiter) as [[b a]|] eqn:E.
  - left. exists b, a. now apply partition_Some.
  - right. now apply partition_None.
Qed.

(** The records of a run and the carry-over it leaves make up, in
    order, the carry-over it started with followed by the chunks. *)
Lemma run_rejoin (chunks : list str) (w : World) :
  let g := fetech_loop chunks delimiter w in
  raised g = None /\
  rejoin delimiter (records g) ++ stream_cache (self (final g)) =
  stream_cache (self w) ++ concat chunks.
Proof.
  revert w. induction chunks as [|chunk chunks IH]; intros w.
  - cbn. now rewrite app_nil_r.
  - cbn [fetech_loop concat].
    destruct (occurs_dec (stream_cache (self w) ++ chunk)) as [H|H].
    + rewrite (feed_emit _ _ H).
      destruct (IH (set_cache w (last_item
                  (split_loop (stream_cache (self w) ++ chunk) c sep))))
        as [IH1 IH2].
      cbn zeta in *. unfold records in *. cbn [raised final items concat].
      split; [exact IH1|].
      unfold rejoin in *. rewrite map_app, concat_app, <- app_assoc, IH2.
      cbn [set_cache self stream_cache].
      rewrite !app_assoc. f_equal. apply split_loop_rejoin.
    + rewrite (feed_quiet _ _ H).
      destruct (IH (set_cache w (stream_cache (self w) ++ chunk)))
        as [IH1 IH2].
      cbn zeta in *. split; [exact IH1|].
      rewrite IH2. cbn [set_cache self stream_cache].
      now rewrite app_assoc.
Qed.

(** From a carry-over without delimiter, the records of a run are the
    pieces of the whole data but the last, which is left as carry-over. *)
Lemma run_split (chunks : list str) (w : World) :
  ~ occurs delimiter (stream_cache (self w)) ->
  let g := fetech_loop chunks delimiter w in
  let pieces := split_loop (stream_cache (self w) ++ concat chunks) c sep in
  records g = all_but_last pieces /\
  stream_cache (self (final g)) = last_item pieces.
Proof.
  revert w. induction chunks as [|chunk chunks IH]; intros w Hw.
  - cbn. rewrite app_nil_r. apply split_loop_none in Hw.
    rewrite Hw. now split.
  - cbn [fetech_loop concat]. cbn zeta. rewrite app_assoc.
    destruct (occurs_dec (stream_cache (self w) ++ chunk)) as [H|H].
    + rewrite (feed_emit _ _ H). unfold records.
      cbn [items final concat].
      destruct (IH (set_cache w (last_item
                  (split_loop (stream_cache (self w) ++ chunk) c sep))))
        as [IH1 IH2].
      { cbn [set_cache self stream_cache]. apply split_loop_last. }
      cbn zeta in *. unfold records in *.
      cbn [set_cache self stream_cache] in *.
      rewrite (split_loop_app c sep (stream_cache (self w) ++ chunk)).
      rewrite IH1, IH2. unfold all_but_last, last_item. split.
      * now rewrite removelast_app by apply split_loop_nonempty.
      * now rewrite last_app_nonempty by apply split_loop_nonempty.
    + rewrite (feed_quiet _ _ H).
      destruct (IH (set_cache w (stream_cache (self w) ++ chunk)))
        as [IH1 IH2].
      { exact H. }
      cbn zeta in *. cbn [set_cache self stream_cache] in *.
      now split.
Qed.

(** The carry-over of a reachable state holds no delimiter. *)
Lemma reachable_cache (w : World) :
  reachable delimiter w -> ~ occurs delimiter (stream_cache (self w)).
Proof.
  induction 1 as [m traffic | w w' chunk out Hw IH Hfeed].
  - apply not_occurs_nil.
  - destruct (occurs_dec (stream_cache (self w) ++ chunk)) as [H|H].
    + rewrite (feed_emit _ _ H) in Hfeed. injection Hfeed as _ <-.
      apply split_loop_last.
    + rewrite (feed_quiet _ _ H) in Hfeed. injection Hfeed as _ <-.
      exact H.
Qed.

End FeedFacts.

(** * The frame reassembler: [Base.fetech_from_stream] *)

(** What the generator yields, turn by turn, on a new object. *)
Example exact_boundary :
  items (fetech_from_stream
           (stream_of [text "a" ++ [LF]; text "b" ++ [LF]])
           default_split_str default_chunk_size fresh)
  = [[text "a"]; [text "b"]].
Proof. reflexivity. Qed.

Example multi_record_chunk :
  items (fetech_from_stream
           (stream_of [text "a" ++ [LF] ++ text "b" ++ [LF] ++ text "c" ++ [LF]])
           default_split_str default_chunk_size fresh)
  = [[text "a"; text "b"; text "c"]].
Proof. reflexivity. Qed.

Example partial_tail_retained :
  let first := feed (text "a" ++ [LF] ++ text "bc") default_split_str fresh in
  first = (inr (Some [text "a"]), set_cache fresh (text "bc")) /\
  feed (text "d" ++ [LF]) default_split_str (snd first)
  = (inr (Some [text "bcd"]), set_cache fresh []).
Proof. split; reflexivity. Qed.

Example empty_delimiter_raises :
  next (fetech_from_stream (stream_of [text "a"]) [] default_chunk_size fresh)
  = Error ValueError.
Proof. reflexivity. Qed.

Example stream_not_callable :
  next (fetech_from_stream (PDict []) default_split_str default_chunk_size
          fresh)
  = Error TypeError.
Proof. reflexivity. Qed.

(** C3 (no data loss). Whatever non-empty delimiter is used and however
    the data is cut into chunks, a run of [fetech_from_stream] on a
    freshly constructed object ends without raising and yields as many
    records as the data has occurrences of the delimiter (counted as
    [str.count] counts them: from left to right, without overlap; for a
    delimiter of one character, the number of times it appears); no
    record contains the delimiter, and the records, each followed by the
    delimiter, are the data up to and including its last delimiter: what
    is left holds no delimiter. *)
Theorem fetech_from_stream_no_data_loss
  (split_str : str) (chunks : nat -> list str) (chunk_size : nat)
  (m : Client) (traffic : list io_event) :
  split_str <> [] ->
  let data := concat (chunks chunk_size) in
  let g := fetech_from_stream (PCallable chunks) split_str chunk_size
             {| self := __init__ m; wire := traffic |} in
  raised g = None /\
  length (records g) = count data split_str /\
  (forall d : ascii,
      split_str = [d] -> length (records g) = count_occ ascii_dec data d) /\
  Forall (fun record => ~ occurs split_str record) (records g) /\
  exists tail,
    data = rejoin split_str (records g) ++ tail /\ ~ occurs split_str tail.
Proof.
  destruct split_str as [|c sep]; [contradiction|]. intros _.
  cbn [fetech_from_stream call]. cbn zeta.
  set (w := {| self := __init__ m; wire := traffic |}).
  destruct (run_rejoin c sep (chunks chunk_size) w) as [Hraised Hjoin].
  destruct (@run_split c sep (chunks chunk_size) w) as [Hrecords Hfinal].
  { apply not_occurs_nil. }
  cbn zeta in *. cbn [w self __init__ stream_cache app] in *.
  assert (length (records (fetech_loop (chunks chunk_size) (c :: sep) w)) =
          count (concat (chunks chunk_size)) (c :: sep)) as Hcount.
  { rewrite Hrecords, all_but_last_firstn, length_firstn, split_loop_length.
    cbn [count]. lia. }
  split; [exact Hraised|]. split; [exact Hcount|]. split; [|split].
  - intros d Hd. injection Hd as -> ->. rewrite Hcount. apply count_single.
  - rewrite Hrecords. apply Forall_all_but_last, split_loop_pieces.
  - eexists. split; [symmetry; exact Hjoin|].
    rewrite Hfinal. apply split_loop_last.
Qed.

(** The data [a LF b LF c] in three chunks, the second being the bare
    delimiter. *)
Lemma fetech_from_stream_no_data_loss_witness :
  default_split_str <> [] /\
  length (records (fetech_from_stream
                     (stream_of [text "a" ++ [LF] ++ text "b"; [LF]; text "c"])
                     default_split_str default_chunk_size fresh)) =
  count (text "a" ++ [LF] ++ text "b" ++ [LF] ++ text "c") default_split_str.
Proof.
  split; [discriminate|].
  exact (proj1 (proj2 (@fetech_from_stream_no_data_loss
    default_split_str
    (fun _ => [text "a" ++ [LF] ++ text "b"; [LF]; text "c"])
    default_chunk_size example_client []
    ltac:(discriminate)))).
Defined.

(** C4. When the buffer (the carry-over followed by the chunk) splits
    into N pieces, N at least 2, the turn of the loop yields the first
    N-1 pieces in their order, none of which contains the delimiter, and
    leaves the last piece as carry-over; the yielded pieces, each
    followed by the delimiter, and the new carry-over make up the
    buffer. The generator suspends there and goes on with the next
    chunk when resumed. *)
Theorem feed_emits_all_but_last
  (split_str chunk : str) (w : World) (pieces : list str)
  (later : list str) :
  split (stream_cache (self w) ++ chunk) split_str = inr pieces ->
  2 <= length pieces ->
  let emitted := firstn (length pieces - 1) pieces in
  let carry := nth (length pieces - 1) pieces [] in
  feed chunk split_str w = (inr (Some emitted), set_cache w carry) /\
  fetech_loop (chunk :: later) split_str w =
    Yield emitted (set_cache w carry) (fetech_loop later split_str) /\
  Forall (fun record => ~ occurs split_str record) emitted /\
  rejoin split_str emitted ++ carry = stream_cache (self w) ++ chunk.
Proof.
  destruct split_str as [|c sep]; [discriminate|].
  cbn [split]. intros Hsplit Hlen. injection Hsplit as <-.
  cbn zeta. rewrite <- all_but_last_firstn, <- last_item_nth.
  assert (feed chunk (c :: sep) w =
          (inr (Some (all_but_last
                  (split_loop (stream_cache (self w) ++ chunk) c sep))),
           set_cache w (last_item
                  (split_loop (stream_cache (self w) ++ chunk) c sep))))
    as Hfeed by (apply feed_emit; now apply split_loop_two).
  split; [exact Hfeed|]. split; [|split].
  - cbn [fetech_loop]. now rewrite Hfeed.
  - apply Forall_all_but_last, split_loop_pieces.
  - apply split_loop_rejoin.
Qed.

(** The carry-over [ab] fed the chunk [c LF d LF e]. *)
Lemma feed_emits_all_but_last_witness :
  feed (text "c" ++ [LF] ++ text "d" ++ [LF] ++ text "e") default_split_str
       (set_cache fresh (text "ab")) =
  (inr (Some [text "abc"; text "d"]), set_cache fresh (text "e")).
Proof.
  exact (proj1 (@feed_emits_all_but_last
    default_split_str
    (text "c" ++ [LF] ++ text "d" ++ [LF] ++ text "e")
    (set_cache fresh (text "ab"))
    [text "abc"; text "d"; text "e"] []
    eq_refl ltac:(cbn [length]; lia))).
Defined.

(** C5, counterexample. A fresh buffer fed a chunk that ends on the only
    delimiter yields its record in that very turn. *)
Lemma feed_single_delimiter_emits :
  reachable default_split_str fresh /\
  count (stream_cache (self fresh) ++ text "a" ++ [LF]) default_split_str
  = 1 /\
  feed (text "a" ++ [LF]) default_split_str fresh =
  (inr (Some [text "a"]), set_cache fresh []).
Proof.
  split; [apply reach_new|]. split; reflexivity.
Qed.

(** C5, as the code has it. A buffer without delimiter yields nothing
    and is kept whole as carry-over. A buffer with exactly one
    occurrence of the delimiter yields exactly one record in the same
    turn, the text before the delimiter, and keeps the text after it.
    With a delimiter of one character, a buffer that ends on its only
    delimiter yields its record at once and leaves the carry-over
    empty. *)
Theorem feed_by_count (split_str chunk : str) (w : World) :
  split_str <> [] ->
  let buffer := stream_cache (self w) ++ chunk in
  (count buffer split_str = 0 ->
   feed chunk split_str w = (inr None, set_cache w buffer)) /\
  (count buffer split_str = 1 ->
   exists record tail,
     buffer = record ++ split_str ++ tail /\
     feed chunk split_str w = (inr (Some [record]), set_cache w tail)) /\
  (forall (d : ascii) (record : str),
     split_str = [d] -> buffer = record ++ [d] -> ~ In d record ->
     feed chunk split_str w = (inr (Some [record]), set_cache w [])).
Proof.
  destruct split_str as [|c sep]; [contradiction|]. intros _.
  cbn zeta. cbn [count]. split; [|split].
  - intros H. apply feed_quiet. now apply count_loop_zero.
  - intros H. destruct (count_loop_one _ _ _ H) as [b [a [Hb Hsplit]]].
    exists b, a. split; [exact Hb|].
    rewrite feed_emit by (exists b, a; exact Hb).
    now rewrite Hsplit.
  - intros d record Hd Hbuf Hin. injection Hd as -> ->.
    assert (partition (record ++ [d]) [d] = Some (record, [])) as P.
    { clear Hbuf. induction record as [|x record IH].
      - cbn. now rewrite Ascii.eqb_refl.
      - cbn [app partition startswith].
        destruct (Ascii.eqb x d) eqn:E.
        + apply Ascii.eqb_eq in E. exfalso. apply Hin. now left.
        + cbn [andb]. rewrite IH; [reflexivity|].
          intros H. apply Hin. now right. }
    rewrite feed_emit by (exists record, []; exact Hbuf).
    rewrite Hbuf, split_loop_eq, P.
    rewrite (split_loop_eq []). reflexivity.
Qed.

(** The carry-over [a] fed the chunk [bc]. *)
Lemma feed_by_count_witness :
  feed (text "bc") default_split_str (set_cache fresh (text "a")) =
  (inr None, set_cache fresh (text "abc")).
Proof.
  exact (proj1 (@feed_by_count default_split_str
    (text "bc") (set_cache fresh (text "a")) ltac:(discriminate)) eq_refl).
Defined.








(** C9, counterexample. With the delimiter CR LF, the chunk [a CR] is
    kept; the chunk [LF], which does not contain the delimiter, then
    completes the record [a]. *)
Lemma delimiter_across_two_chunks :
  let crlf := ["013"%char; LF] in
  let w := snd (feed (text "a" ++ ["013"%char]) crlf fresh) in
  reachable crlf w /\
  count [LF] crlf = 0 /\
  ~ occurs crlf [LF] /\
  feed [LF] crlf w = (inr (Some [text "a"]), set_cache w []).
Proof.
  cbn zeta. split; [|split; [reflexivity|split; [|reflexivity]]].
  2: { now apply (count_loop_zero "013"%char [LF] [LF]). }
  exact (@reach_feed ["013"%char; LF] fresh _ (text "a" ++ ["013"%char]) None
           (reach_new _ example_client []) eq_refl).
Qed.

(** C9, as the code has it. In every state that feeding chunks can
    reach, the carry-over holds no delimiter. With a delimiter of one
    character, as the default line feed, a chunk that does not contain
    it yields no record and is added to the carry-over. *)
Theorem quiet_chunk_yields_nothing (split_str : str) (w : World) :
  split_str <> [] ->
  reachable split_str w ->
  ~ occurs split_str (stream_cache (self w)) /\
  (forall (d : ascii) (chunk : str),
      split_str = [d] -> ~ occurs split_str chunk ->
      feed chunk split_str w =
      (inr None, set_cache w (stream_cache (self w) ++ chunk))).
Proof.
  destruct split_str as [|c sep]; [contradiction|]. intros _ Hw.
  pose proof (reachable_cache Hw) as Hcache.
  split; [exact Hcache|].
  intros d chunk Hd Hchunk. injection Hd as -> ->.
  apply feed_quiet. rewrite occurs_single in *.
  intros H. apply in_app_or in H. tauto.
Qed.

(** After the chunk [x LF a], the chunk [bc] yields nothing. *)
Lemma quiet_chunk_yields_nothing_witness :
  feed (text "bc") default_split_str
       (snd (feed (text "x" ++ [LF] ++ text "a") default_split_str fresh)) =
  (inr None, set_cache fresh (text "abc")).
Proof.
  refine (proj2 (@quiet_chunk_yields_nothing default_split_str
    (snd (feed (text "x" ++ [LF] ++ text "a") default_split_str fresh))
    ltac:(discriminate) _) LF (text "bc") eq_refl _).
  - exact (@reach_feed default_split_str fresh _
             (text "x" ++ [LF] ++ text "a") (Some [text "x"])
             (reach_new _ example_client []) eq_refl).
  - intros H. apply occurs_single in H. cbn in H.
    repeat (destruct H as [H|H]; [discriminate H|]). exact H.
Defined.

(** * [Base._request] *)

Lemma posts_log (w : World) (events : list io_event) :
  posts (log w events) = posts w + posts {| self := self w; wire := events |}.
Proof.
  unfold posts, log. cbn [wire]. now rewrite filter_app, length_app.
Qed.

(** C10, counterexample. A response with status 200 whose body is not
    JSON: [_request] does not return a decoded body, it raises
    [ValueError]. *)
Lemma _request_200_without_json_raises :
  option_map status_code
    (answer 200 None (_create_session (self fresh) (text "GET"))
       (request_args (@app ascii) (self fresh) (text "/v1/status") PNone))
  = Some 200%Z /\
  _request (@app ascii) (answer 200 None) (text "GET") (text "/v1/status")
           PNone fresh
  = (inl ValueError,
     log fresh [SessionPost (_create_session (self fresh) (text "GET"))
                  (request_args (@app ascii) (self fresh) (text "/v1/status")
                                PNone);
                SessionClose]).
Proof. split; reflexivity. Qed.

(** C10, as the code has it. When [session.post] returns a response,
    [_request] raises [Icinga2ApiException] exactly when the status code
    of that response is outside 200 to 299, with the message made of
    the URL, the status and the text of the response. With a status
    inside the range it returns the decoded body when the body is JSON,
    and raises the [ValueError] of [response.json()] when it is not.
    Either way the request went out once and the object is left as it
    was. *)
Theorem _request_by_status
  (urljoin : str -> str -> str)
  (session_post : Session -> RequestArgs -> option Response)
  (method url_path : str) (payload : value) (w : World)
  (response : Response) :
  session_post (_create_session (self w) method)
               (request_args urljoin (self w) url_path payload)
  = Some response ->
  let result :=
    fst (_request urljoin session_post method url_path payload w) in
  let w' := snd (_request urljoin session_post method url_path payload w) in
  ((exists error, result = inl (Icinga2ApiException error)) <->
   ~ (200 <= status_code response <= 299)%Z) /\
  (~ (200 <= status_code response <= 299)%Z ->
   result = inl (Icinga2ApiException (failed_message response))) /\
  ((200 <= status_code response <= 299)%Z ->
   forall body, body_json response = Some body -> result = inr body) /\
  ((200 <= status_code response <= 299)%Z ->
   body_json response = None -> result = inl ValueError) /\
  posts w' = S (posts w) /\
  self w' = self w.
Proof.
  intros Hpost. unfold _request. rewrite Hpost. cbn zeta.
  destruct ((200 <=? status_code response)%Z
            && (status_code response <=? 299)%Z) eqn:E; cbn [negb fst snd].
  - apply andb_prop in E. destruct E as [E1 E2].
    apply Z.leb_le in E1, E2. unfold json. repeat split.
    + intros [error H]. destruct (body_json response); discriminate H.
    + intros H. exfalso. apply H. lia.
    + intros H. exfalso. apply H. lia.
    + intros _ body Hbody. now rewrite Hbody.
    + intros _ Hbody. now rewrite Hbody.
    + rewrite posts_log. unfold posts at 2. cbn. lia.
  - assert (~ (200 <= status_code response <= 299)%Z) as Hout.
    { intros [H1 H2]. apply Z.leb_le in H1, H2. rewrite H1, H2 in E.
      discriminate E. }
    repeat split.
    + intros _. exact Hout.
    + intros _. now eexists.
    + intros H. contradiction.
    + intros H. contradiction.
    + rewrite posts_log. unfold posts at 2. cbn. lia.
Qed.

(** A server that answers 200 with a JSON object, and one that answers
    404. *)
Lemma _request_by_status_witness :
  fst (_request (@app ascii)
         (answer 200 (Some (PDict [(text "results", PList [])])))
         (text "GET") (text "/v1/status") PNone fresh)
  = inr (PDict [(text "results", PList [])]) /\
  fst (_request (@app ascii) (answer 404 None) (text "POST")
         (text "/v1/events") PNone fresh) =
  inl (Icinga2ApiException
         (text "Request " ++ [DQUOTE]
          ++ text "https://localhost:5665/v1/events" ++ [DQUOTE]
          ++ text " failed with status 404: ")).
Proof.
  split.
  - refine (proj1 (proj2 (proj2 (@_request_by_status (@app ascii)
      (answer 200 (Some (PDict [(text "results", PList [])])))
      (text "GET") (text "/v1/status") PNone fresh _ eq_refl))) _
      (PDict [(text "results", PList [])]) eq_refl).
    cbn. lia.
  - refine (proj1 (proj2 (@_request_by_status (@app ascii) (answer 404 None)
      (text "POST") (text "/v1/events") PNone fresh _ eq_refl)) _).
    cbn. lia.
Defined.

(** * [Events.subscribe] *)

(** C1. Whatever the arguments, the first [next] on the generator that
    [subscribe] returns raises [TypeError]: the call of [_request] with
    the keyword [stream] does not bind, while the same call without it
    does. Nothing is yielded before, nothing goes over the network, and
    the object is left as it was. *)
Theorem subscribe_raises_TypeError
  (urljoin : str -> str -> str)
  (session_post : Session -> RequestArgs -> option Response)
  (types queue filters : value) (w : World) :
  let g := subscribe urljoin session_post types queue filters w in
  bind_arguments _request_params 3 ["stream"%string] = Some TypeError /\
  bind_arguments _request_params 3 [] = None /\
  next g = Error TypeError /\
  items g = [] /\
  final g = w.
Proof. repeat split; reflexivity. Qed.

(** The two loops that follow the request in [subscribe] hand on the
    records of [fetech_from_stream], one by one and in order, each as
    the [str] it is. *)
Lemma subscribe_events_yields_records (stream : value) (w : World) :
  items (subscribe_events stream w) =
  map PStr (records (fetech_from_stream stream default_split_str
                       default_chunk_size w)).
Proof. apply items_for_in_yield_each. Qed.


(** C7, counterexample. With an empty [types], starting the generator
    raises the [TypeError] of the call of [_request], as it does with a
    non-empty [types]: it is not an error about the arguments of
    [subscribe], and the payload was built with the empty list in it. *)
Lemma subscribe_accepts_empty_types :
  let started (types : value) :=
    subscribe (@app ascii) (answer 200 None) types (PStr (text "monitor"))
              PNone fresh in
  started (PList []) = Raise TypeError fresh /\
  is_configuration_error TypeError = false /\
  started (PList [PStr (text "CheckResult")]) = started (PList []) /\
  subscribe_payload (PList []) (PStr (text "monitor")) PNone =
  PDict [(text "types", PList []); (text "queue", PStr (text "monitor"))].
Proof. repeat split; reflexivity. Qed.

(** C7, as the code has it. [subscribe] does not check [types]: empty or
    not, it is put as it is under the key [types] of the payload, and no
    exception that the generator raises when it is started is one by
    which this module reports a bad argument or configuration. *)
Theorem subscribe_does_not_check_types
  (urljoin : str -> str -> str)
  (session_post : Session -> RequestArgs -> option Response)
  (types queue filters : value) (w : World) :
  (exists items,
      subscribe_payload types queue filters = PDict items /\
      lookup (text "types") items = Some types) /\
  (forall e w',
      subscribe urljoin session_post types queue filters w = Raise e w' ->
      is_configuration_error e = false).
Proof.
  split.
  - eexists. split; reflexivity.
  - intros e w' H. cbv in H. now injection H as <- _.
Qed.

(** An empty [types]. *)
Lemma subscribe_does_not_check_types_witness :
  is_configuration_error TypeError = false.
Proof.
  exact (proj2 (@subscribe_does_not_check_types (@app ascii)
    (answer 200 None) (PList []) (PStr (text "monitor")) PNone fresh)
    TypeError fresh eq_refl).
Defined.

(** * The request builders *)

(** ** Dicts and tables *)

Lemma str_eqb_eq (a b : str) : str_eqb a b = true <-> a = b.
Proof.
  unfold str_eqb. destruct (list_eq_dec ascii_dec a b); split;
    congruence.
Qed.

Lemma str_eqb_refl (a : str) : str_eqb a a = true.
Proof. now apply str_eqb_eq. Qed.

Lemma str_eqb_neq (a b : str) : str_eqb a b = false <-> a <> b.
Proof.
  unfold str_eqb. destruct (list_eq_dec ascii_dec a b); split;
    congruence.
Qed.

Lemma lookup_cons (key k : str) (v : value) (d : list (str * value)) :
  lookup key ((k, v) :: d) = if str_eqb k key then Some v else lookup key d.
Proof.
  cbn [lookup]. unfold str_eqb.
  now destruct (list_eq_dec ascii_dec k key).
Qed.

Lemma lookup_setitem_same (key : str) (v : value) (d : list (str * value)) :
  lookup key (setitem key v d) = Some v.
Proof.
  induction d as [|[k x] d IH]; cbn [setitem].
  - now rewrite lookup_cons, str_eqb_refl.
  - destruct (str_eqb k key) eqn:E; rewrite lookup_cons, E;
      [reflexivity | exact IH].
Qed.

Lemma lookup_setitem_other (key key' : str) (v : value)
  (d : list (str * value)) :
  key <> key' -> lookup key' (setitem key v d) = lookup key' d.
Proof.
  intros Hne. induction d as [|[k x] d IH]; cbn [setitem].
  - rewrite lookup_cons. apply str_eqb_neq in Hne. now rewrite Hne.
  - destruct (str_eqb k key) eqn:E; rewrite !lookup_cons.
    + apply str_eqb_eq in E. subst k.
      apply str_eqb_neq in Hne. now rewrite Hne.
    + now rewrite IH.
Qed.

Lemma lookup_update_absent (key : str) (other d : list (str * value)) :
  lookup key other = None -> lookup key (update d other) = lookup key d.
Proof.
  unfold update. revert d.
  induction other as [|[k x] other IH]; intros d; [reflexivity|].
  rewrite lookup_cons. destruct (str_eqb k key) eqn:E; [discriminate|].
  intros H. cbn [fold_left fst snd]. rewrite (IH _ H).
  apply lookup_setitem_other. now apply str_eqb_neq.
Qed.

Lemma lookup_update_present (key : str) (v : value)
  (other d : list (str * value)) :
  NoDup (map fst other) -> lookup key other = Some v ->
  lookup key (update d other) = Some v.
Proof.
  unfold update. revert d.
  induction other as [|[k x] other IH]; intros d Hnd; [discriminate|].
  cbn [map fst] in Hnd. apply NoDup_cons_iff in Hnd.
  destruct Hnd as [Hk Hnd].
  rewrite lookup_cons. cbn [fold_left fst snd].
  destruct (str_eqb k key) eqn:E.
  - intros H. injection H as <-. apply str_eqb_eq in E. subst k.
    change (lookup key (update (setitem key x d) other) = Some x).
    rewrite lookup_update_absent; [apply lookup_setitem_same|].
    clear - Hk. induction other as [|[k y] other IH]; [reflexivity|].
    rewrite lookup_cons. destruct (str_eqb k key) eqn:E.
    + apply str_eqb_eq in E. subst k. exfalso. apply Hk. now left.
    + apply IH. intros H. apply Hk. now right.
  - intros H. now apply IH.
Qed.

Lemma table_get_In (key v : str) (table : list (str * str)) :
  table_get key table = Some v -> In (key, v) table.
Proof.
  induction table as [|[k x] table IH]; cbn [table_get]; [discriminate|].
  destruct (str_eqb k key) eqn:E.
  - intros H. injection H as <-. apply str_eqb_eq in E. subst k. now left.
  - intros H. right. now apply IH.
Qed.

Lemma distinct_NoDup (names : list str) :
  distinct names = true -> NoDup names.
Proof.
  induction names as [|n names IH]; cbn [distinct]; [constructor|].
  intros H. apply andb_prop in H. destruct H as [Hn Hd].
  constructor; [|now apply IH].
  intros Hin. apply negb_true_iff in Hn.
  assert (existsb (str_eqb n) names = true) as Hex; [|congruence].
  apply existsb_exists. exists n. split; [exact Hin | apply str_eqb_refl].
Qed.

Lemma NoDup_snd_injective (table : list (str * str)) (a b v : str) :
  NoDup (map snd table) -> In (a, v) table -> In (b, v) table -> a = b.
Proof.
  induction table as [|[k x] table IH]; [contradiction|].
  cbn [map snd]. intros Hnd Ha Hb. apply NoDup_cons_iff in Hnd.
  destruct Hnd as [Hx Hnd].
  assert (forall c, In (c, x) table -> False) as Hnot.
  { intros c Hc. apply Hx. apply in_map_iff. now exists (c, x). }
  destruct Ha as [Ha|Ha], Hb as [Hb|Hb].
  - congruence.
  - injection Ha as -> ->. now apply Hnot in Hb.
  - injection Hb as -> ->. now apply Hnot in Ha.
  - now apply IH.
Qed.

(** ** What [_request] sends *)

Lemma requests_log (w : World) (events : list io_event) :
  requests (log w events) =
  requests w ++ requests {| self := self w; wire := events |}.
Proof. unfold requests, log. cbn [wire]. apply flat_map_app. Qed.

Lemma request_sent
  (urljoin : str -> str -> str)
  (session_post : Session -> RequestArgs -> option Response)
  (method url_path : str) (payload : value) (w : World) :
  sent w (snd (_request urljoin session_post method url_path payload w))
       (_create_session (self w) method)
       (request_args urljoin (self w) url_path payload).
Proof.
  unfold sent, _request.
  destruct (session_post _ _) as [response|]; [destruct (negb _)|];
    cbn [snd]; now rewrite requests_log.
Qed.

Lemma method_override_upper (this : Base) (method : str) :
  method_override (_create_session this method) = Some (upper method).
Proof. reflexivity. Qed.

(** ** [Objects] *)

Lemma table_get_None (key : str) (table : list (str * str)) :
  (forall v, ~ In (key, v) table) -> table_get key table = None.
Proof.
  intros H. destruct (table_get key table) as [v|] eqn:E; [|reflexivity].
  apply table_get_In in E. now apply H in E.
Qed.

Lemma In_table_get (key v : str) (table : list (str * str)) :
  In (key, v) table -> table_get key table <> None.
Proof.
  induction table as [|[k x] table IH]; [contradiction|].
  cbn [table_get]. intros [H|H].
  - injection H as -> ->. now rewrite str_eqb_refl.
  - destruct (str_eqb k key); [discriminate | now apply IH].
Qed.

(** X1. The URL segment of every object type that [_convert_object_type]
    knows is the name of the type in lower case followed by an [s], and
    nothing cleverer: [Dependency] gives [dependencys]. *)
Theorem object_type_segment (object_type segment : str) :
  Objects._convert_object_type object_type = inr segment ->
  segment = lower object_type ++ text "s".
Proof.
  unfold Objects._convert_object_type.
  destruct (table_get object_type Objects.type_conv) as [v|] eqn:E;
    [|discriminate].
  intros H. injection H as <-. apply table_get_In in E.
  assert (forallb (fun kv => str_eqb (snd kv) (lower (fst kv) ++ text "s"))
                  Objects.type_conv = true) as Hall by (vm_compute; reflexivity).
  rewrite forallb_forall in Hall. apply Hall in E. now apply str_eqb_eq in E.
Qed.

Lemma object_type_segment_witness :
  Objects._convert_object_type (text "Dependency") = inr (text "dependencys")
  /\ text "dependencys" = lower (text "Dependency") ++ text "s".
Proof.
  split; [reflexivity|].
  exact (@object_type_segment (text "Dependency") (text "dependencys")
           eq_refl).
Defined.

(** X2. No two object types share a URL segment. *)
Theorem object_type_segment_injective (type1 type2 segment : str) :
  Objects._convert_object_type type1 = inr segment ->
  Objects._convert_object_type type2 = inr segment ->
  type1 = type2.
Proof.
  unfold Objects._convert_object_type.
  destruct (table_get type1 Objects.type_conv) as [v1|] eqn:E1;
    [|discriminate].
  destruct (table_get type2 Objects.type_conv) as [v2|] eqn:E2;
    [|discriminate].
  intros H1 H2. injection H1 as ->. injection H2 as ->.
  apply table_get_In in E1, E2.
  apply (@NoDup_snd_injective Objects.type_conv type1 type2 segment);
    [|assumption|assumption].
  apply distinct_NoDup. vm_compute. reflexivity.
Qed.

Lemma object_type_segment_injective_witness : text "Host" = text "Host".
Proof.
  exact (@object_type_segment_injective (text "Host") (text "Host")
           (text "hosts") eq_refl eq_refl).
Defined.

(** X3. An object type that is not a key of the table, the keys being
    case-sensitive, makes [list], [create], [update] and [delete] raise
    [Icinga2ApiException] with the message that names the type, before
    anything is sent: the world is left as it was. *)
Theorem unknown_object_type_sends_nothing
  (urljoin : str -> str -> str)
  (session_post : Session -> RequestArgs -> option Response)
  (object_type name : str) (optional_name : option str)
  (attrs filters joins templates cascade : value) (w : World) :
  (forall segment, ~ In (object_type, segment) Objects.type_conv) ->
  let refused :=
    (inl (Icinga2ApiException (Objects.no_such_type object_type)), w) in
  Objects.list urljoin session_post object_type optional_name attrs filters
               joins w = refused /\
  Objects.create urljoin session_post object_type name templates attrs w
  = refused /\
  Objects.update urljoin session_post object_type name attrs w = refused /\
  Objects.delete urljoin session_post object_type optional_name filters
                 cascade w = refused.
Proof.
  intros H. apply table_get_None in H.
  unfold Objects.list, Objects.create, Objects.update, Objects.delete,
    Objects._convert_object_type.
  rewrite H. now repeat split.
Qed.

(** The type [host] in lower case is refused. *)
Lemma unknown_object_type_sends_nothing_witness :
  Objects.list (@app ascii) (answer 200 None) (text "host") None PNone PNone
               PNone fresh
  = (inl (Icinga2ApiException
            (text "Icinga 2 object type " ++ [DQUOTE] ++ text "host"
             ++ [DQUOTE] ++ text " does not exist.")), fresh).
Proof.
  refine (proj1 (@unknown_object_type_sends_nothing (@app ascii)
    (answer 200 None) (text "host") [] None PNone PNone PNone PNone PNone
    fresh _)).
  intros segment H. apply In_table_get in H. now apply H.
Defined.

(** Computes the dict that a builder has put together. *)
Ltac compute_payload :=
  repeat match goal with
  | |- context [PDict ?p] =>
      progress (let p' := eval vm_compute in p in change p with p')
  end;
  cbn [truthy length Nat.eqb negb andb].

(** Settles what is said of the body, once the payload is computed. *)
Ltac settle_body :=
  split;
  [ split;
    [ intros H; try discriminate H; now repeat split
    | intros H; decompose [and] H; try discriminate; reflexivity ]
  | intros body H;
    first [ discriminate H
          | injection H as <-; eexists; split; [reflexivity|];
            now repeat split ] ].

(** X4. For a known object type, [Objects.list] sends exactly one
    request: with the method override [GET], to the URL made of the
    segment of the type and, when a name is given, the name. A JSON body
    goes with it only when one of [attrs], [filters], [joins] is true;
    its keys are then [attrs], [filter], and either [all_joins] (the
    string [1], for [joins=True]) or [joins] (any other true value),
    never both. *)
Theorem Objects_list_request
  (urljoin : str -> str -> str)
  (session_post : Session -> RequestArgs -> option Response)
  (object_type segment : str) (name : option str)
  (attrs filters joins : value) (w : World) :
  Objects._convert_object_type object_type = inr segment ->
  let w' := snd (Objects.list urljoin session_post object_type name attrs
                              filters joins w) in
  exists session args,
    sent w w' session args /\
    method_override session = Some (text "GET") /\
    arg_url args =
      urljoin (url (manager (self w)))
              (text "/v1/objects/" ++ segment
               ++ if truthy_attr name then text "/" ++ format_name name
                  else []) /\
    (arg_json args = None <->
     truthy attrs = false /\ truthy filters = false /\ truthy joins = false)
    /\
    (forall body, arg_json args = Some body ->
     exists payload,
       body = PDict payload /\
       lookup (text "attrs") payload
       = (if truthy attrs then Some attrs else None) /\
       lookup (text "filter") payload
       = (if truthy filters then Some filters else None) /\
       lookup (text "all_joins") payload
       = (if is_bool joins && truthy joins then Some (PStr (text "1"))
          else None) /\
       lookup (text "joins") payload
       = (if negb (is_bool joins) && truthy joins then Some joins
          else None)).
Proof.
  intros Hconv. unfold Objects.list. rewrite Hconv. cbn zeta.
  eexists. eexists. split; [apply request_sent|].
  split; [reflexivity|]. split.
  { cbn [request_args arg_url]. f_equal.
    destruct (truthy_attr name); cbn; rewrite <- ?app_assoc;
      [reflexivity | now rewrite app_nil_r]. }
  cbn [request_args arg_json].
  destruct (truthy attrs) eqn:Ha, (truthy filters) eqn:Hf,
    (is_bool joins) eqn:Hb, (truthy joins) eqn:Hj;
    cbn [andb negb]; compute_payload; settle_body.
Qed.

(** The services of one host, with all joins. *)
Lemma Objects_list_request_witness :
  exists session args,
    sent fresh
         (snd (Objects.list (@app ascii) (answer 200 None) (text "Service")
                 (Some (text "web!ping4")) PNone PNone (PBool true) fresh))
         session args /\
    method_override session = Some (text "GET") /\
    arg_url args = text "https://localhost:5665/v1/objects/services/web!ping4"
    /\
    arg_json args = Some (PDict [(text "all_joins", PStr (text "1"))]).
Proof.
  destruct (@Objects_list_request (@app ascii) (answer 200 None)
              (text "Service") (text "services") (Some (text "web!ping4"))
              PNone PNone (PBool true) fresh eq_refl)
    as [session [args [Hsent [Hmethod [Hurl [Hnone Hbody]]]]]].
  exists session, args. split; [exact Hsent|]. split; [exact Hmethod|].
  split; [exact Hurl|].
  revert Hsent. unfold sent. vm_compute. intros Hsent.
  injection Hsent as _ <-. reflexivity.
Defined.

(** X5. For a known object type, [Objects.delete] sends exactly one
    request with the method override [DELETE]. Any true value of
    [cascade] is sent as the number 1; the body is left out only when
    both [filters] and [cascade] are false. *)
Theorem Objects_delete_request
  (urljoin : str -> str -> str)
  (session_post : Session -> RequestArgs -> option Response)
  (object_type segment : str) (name : option str)
  (filters cascade : value) (w : World) :
  Objects._convert_object_type object_type = inr segment ->
  let w' := snd (Objects.delete urljoin session_post object_type name
                                filters cascade w) in
  exists session args,
    sent w w' session args /\
    method_override session = Some (text "DELETE") /\
    arg_url args =
      urljoin (url (manager (self w)))
              (text "/v1/objects/" ++ segment
               ++ if truthy_attr name then text "/" ++ format_name name
                  else []) /\
    (arg_json args = None <->
     truthy filters = false /\ truthy cascade = false) /\
    (forall body, arg_json args = Some body ->
     exists payload,
       body = PDict payload /\
       lookup (text "filter") payload
       = (if truthy filters then Some filters else None) /\
       lookup (text "cascade") payload
       = (if truthy cascade then Some (PInt 1) else None)).
Proof.
  intros Hconv. unfold Objects.delete. rewrite Hconv. cbn zeta.
  eexists. eexists. split; [apply request_sent|].
  split; [reflexivity|]. split.
  { cbn [request_args arg_url]. f_equal.
    destruct (truthy_attr name); cbn; rewrite <- ?app_assoc;
      [reflexivity | now rewrite app_nil_r]. }
  cbn [request_args arg_json].
  destruct (truthy filters) eqn:Hf, (truthy cascade) eqn:Hc;
    compute_payload; settle_body.
Qed.

(** Deleting a host by name, with [cascade] given as a string. *)
Lemma Objects_delete_request_witness :
  exists session args,
    sent fresh
         (snd (Objects.delete (@app ascii) (answer 200 None) (text "Host")
                 (Some (text "web")) PNone (PStr (text "yes")) fresh))
         session args /\
    arg_url args = text "https://localhost:5665/v1/objects/hosts/web" /\
    arg_json args = Some (PDict [(text "cascade", PInt 1)]).
Proof.
  destruct (@Objects_delete_request (@app ascii) (answer 200 None)
              (text "Host") (text "hosts") (Some (text "web"))
              PNone (PStr (text "yes")) fresh eq_refl)
    as [session [args [Hsent [_ [Hurl _]]]]].
  exists session, args. split; [exact Hsent|]. split; [exact Hurl|].
  revert Hsent. unfold sent. vm_compute. intros Hsent.
  injection Hsent as _ <-. reflexivity.
Defined.

(** X6. For a known object type, [Objects.create] and [Objects.update]
    each send exactly one request to the URL of the type and the name,
    [create] with the method override [PUT] and [update] with [POST].
    [update] sends [attrs] itself as the body, and no body when [attrs]
    is false (an empty dict); [create] sends a body only when [attrs] or
    [templates] is true, with those keys. *)
Theorem Objects_create_update_request
  (urljoin : str -> str -> str)
  (session_post : Session -> RequestArgs -> option Response)
  (object_type segment name : str) (templates attrs : value) (w : World) :
  Objects._convert_object_type object_type = inr segment ->
  let target :=
    urljoin (url (manager (self w)))
            (text "/v1/objects/" ++ segment ++ text "/" ++ name) in
  (exists session args,
     sent w (snd (Objects.create urljoin session_post object_type name
                                 templates attrs w)) session args /\
     method_override session = Some (text "PUT") /\
     arg_url args = target /\
     (arg_json args = None <->
      truthy attrs = false /\ truthy templates = false) /\
     (forall body, arg_json args = Some body ->
      exists payload,
        body = PDict payload /\
        lookup (text "attrs") payload
        = (if truthy attrs then Some attrs else None) /\
        lookup (text "templates") payload
        = (if truthy templates then Some templates else None))) /\
  (exists session args,
     sent w (snd (Objects.update urljoin session_post object_type name
                                 attrs w)) session args /\
     method_override session = Some (text "POST") /\
     arg_url args = target /\
     arg_json args = (if truthy attrs then Some attrs else None)).
Proof.
  intros Hconv. unfold Objects.create, Objects.update. rewrite Hconv.
  cbn zeta. split.
  - eexists. eexists. split; [apply request_sent|].
    split; [reflexivity|]. split.
    { reflexivity. }
    cbn [request_args arg_json].
    destruct (truthy attrs) eqn:Ha, (truthy templates) eqn:Ht;
      compute_payload; settle_body.
  - eexists. eexists. split; [apply request_sent|].
    now repeat split.
Qed.

(** An update with an empty dict of attributes. *)
Lemma Objects_create_update_request_witness :
  exists session args,
    sent fresh
         (snd (Objects.update (@app ascii) (answer 200 None) (text "Host")
                 (text "web") (PDict []) fresh))
         session args /\
    arg_url args = text "https://localhost:5665/v1/objects/hosts/web" /\
    arg_json args = None.
Proof.
  destruct (proj2 (@Objects_create_update_request (@app ascii)
              (answer 200 None) (text "Host") (text "hosts") (text "web")
              PNone (PDict []) fresh eq_refl))
    as [session [args [Hsent [_ [Hurl Hjson]]]]].
  exists session, args. split; [exact Hsent|]. split; [exact Hurl|].
  exact Hjson.
Defined.

(** ** [Actions] *)

Lemma setitem_nonempty (key : str) (v : value) (d : list (str * value)) :
  setitem key v d <> [].
Proof.
  destruct d as [|[k x] d]; cbn [setitem]; [discriminate|].
  destruct (str_eqb k key); discriminate.
Qed.

Lemma update_nonempty (d other : list (str * value)) :
  d <> [] -> update d other <> [].
Proof.
  unfold update. revert d.
  induction other as [|[k x] other IH]; intros d Hd; [exact Hd|].
  cbn [fold_left fst snd]. apply IH, setitem_nonempty.
Qed.

Lemma truthy_PDict (d : list (str * value)) :
  d <> [] -> truthy (PDict d) = true.
Proof. destruct d; [contradiction | reflexivity]. Qed.

(** X7. [process_check_result] accepts the object types [Host] and
    [Service] and no other: for any other it raises
    [Icinga2ApiException] and sends nothing. For these two it sends one
    POST to [process-check-result] whose body names the object under the
    key [host] or [service], carries the exit status and the plugin
    output, and the three optional values only when they are true. *)
Theorem process_check_result_request
  (urljoin : str -> str -> str)
  (session_post : Session -> RequestArgs -> option Response)
  (object_type : str) (name exit_status plugin_output : value)
  (performance_data check_command check_source : value) (w : World) :
  let result :=
    Actions.process_check_result urljoin session_post object_type name
      exit_status plugin_output performance_data check_command check_source
      w in
  (object_type <> text "Host" -> object_type <> text "Service" ->
   result = (inl (Icinga2ApiException Actions.bad_object_type), w)) /\
  (object_type = text "Host" \/ object_type = text "Service" ->
   exists session args payload,
     sent w (snd result) session args /\
     method_override session = Some (text "POST") /\
     arg_url args = urljoin (url (manager (self w)))
                            (text "/v1/actions/process-check-result") /\
     arg_json args = Some (PDict payload) /\
     lookup (lower object_type) payload = Some name /\
     lookup (text "exit_status") payload = Some exit_status /\
     lookup (text "plugin_output") payload = Some plugin_output /\
     lookup (text "performance_data") payload
     = (if truthy performance_data then Some performance_data else None) /\
     lookup (text "check_command") payload
     = (if truthy check_command then Some check_command else None) /\
     lookup (text "check_source") payload
     = (if truthy check_source then Some check_source else None)).
Proof.
  cbn zeta. unfold Actions.process_check_result. split.
  - intros H1 H2. apply str_eqb_neq in H1, H2. now rewrite H1, H2.
  - intros [-> | ->];
      [ change (str_eqb (text "Host") (text "Host")) with true
      | change (str_eqb (text "Service") (text "Host")) with false;
        change (str_eqb (text "Service") (text "Service")) with true ];
      cbn [orb negb];
      destruct (truthy performance_data), (truthy check_command),
        (truthy check_source);
      (eexists; eexists; eexists; split; [apply request_sent|];
       split; [reflexivity|]; split; [reflexivity|];
       cbn [request_args arg_json];
       compute_payload; now repeat split).
Qed.

(** A check result for an object type written in lower case. *)
Lemma process_check_result_request_witness :
  Actions.process_check_result (@app ascii) (answer 200 None) (text "host")
    (PStr (text "web")) (PInt 2) (PStr (text "down")) PNone PNone PNone fresh
  = (inl (Icinga2ApiException
            (text "object_type needs to be " ++ [DQUOTE] ++ text "Host"
             ++ [DQUOTE] ++ text " or " ++ [DQUOTE] ++ text "Service"
             ++ [DQUOTE] ++ text ".")), fresh).
Proof.
  exact (proj1 (@process_check_result_request (@app ascii) (answer 200 None)
    (text "host") (PStr (text "web")) (PInt 2) (PStr (text "down"))
    PNone PNone PNone fresh)
    ltac:(discriminate) ltac:(discriminate)).
Defined.

(** X8. [reschedule_check], [send_custom_notification] and
    [delay_notification] refuse a [filters] that is [None] or empty:
    they raise [Icinga2ApiException] with the message [filters is empty
    or none] and send nothing. *)
Theorem actions_need_filters
  (urljoin : str -> str -> str)
  (session_post : Session -> RequestArgs -> option Response)
  (filters : option (list (str * value)))
  (next_check force_check author comment force timestamp : value)
  (w : World) :
  filters = None \/ filters = Some [] ->
  let refused := (inl (Icinga2ApiException (text "filters is empty or none")),
                  w) in
  Actions.reschedule_check urljoin session_post filters next_check
                           force_check w = refused /\
  Actions.send_custom_notification urljoin session_post filters author
                                   comment force w = refused /\
  Actions.delay_notification urljoin session_post filters timestamp w
  = refused.
Proof. intros [-> | ->]; now repeat split. Qed.

Lemma actions_need_filters_witness :
  Actions.delay_notification (@app ascii) (answer 200 None) (Some [])
                             (PStr (text "1446389894")) fresh
  = (inl (Icinga2ApiException (text "filters is empty or none")), fresh).
Proof.
  exact (proj2 (proj2 (@actions_need_filters (@app ascii) (answer 200 None)
    (Some []) PNone PNone PNone PNone PNone (PStr (text "1446389894")) fresh
    (or_intror eq_refl)))).
Defined.

(** X9. With a non-empty [filters], these three methods send one POST
    whose body is their own keys updated by [filters]: every key of
    [filters] is in the body with the value [filters] gives it, also
    when it is one of the method's own keys, such as [force_check]; every
    other key has the value the method gave it. *)
Theorem actions_filters_override
  (urljoin : str -> str -> str)
  (session_post : Session -> RequestArgs -> option Response)
  (filters : list (str * value))
  (next_check force_check author comment force timestamp : value)
  (w : World) :
  filters <> [] ->
  NoDup (map fst filters) ->
  let updated (own : list (str * value)) (w' : World) (action : str) :=
    exists session args payload,
      sent w w' session args /\
      method_override session = Some (text "POST") /\
      arg_url args = urljoin (url (manager (self w)))
                             (text "/v1/actions/" ++ action) /\
      arg_json args = Some (PDict payload) /\
      (forall key v, lookup key filters = Some v ->
                     lookup key payload = Some v) /\
      (forall key, lookup key filters = None ->
                   lookup key payload = lookup key own) in
  updated ((text "force_check", force_check)
           :: if truthy next_check then [(text "next_check", next_check)]
              else [])
          (snd (Actions.reschedule_check urljoin session_post (Some filters)
                  next_check force_check w))
          (text "reschedule-check") /\
  updated [(text "author", author); (text "comment", comment);
           (text "force", force)]
          (snd (Actions.send_custom_notification urljoin session_post
                  (Some filters) author comment force w))
          (text "send-custom-notification") /\
  updated [(text "timestamp", timestamp)]
          (snd (Actions.delay_notification urljoin session_post
                  (Some filters) timestamp w))
          (text "delay-notification").
Proof.
  intros Hne Hnd. cbn zeta.
  assert (truthy_dict (Some filters) = true) as Ht
    by (destruct filters; [contradiction | reflexivity]).
  unfold Actions.reschedule_check, Actions.send_custom_notification,
    Actions.delay_notification.
  rewrite Ht. cbn [negb]. cbn zeta.
  repeat split;
    (eexists; eexists; eexists; split; [apply request_sent|];
     split; [reflexivity|]; split; [reflexivity|];
     cbn [request_args arg_json]; split;
     [ rewrite truthy_PDict;
       [reflexivity | apply update_nonempty; try discriminate;
                      destruct (truthy next_check); discriminate]
     | split;
       [ intros key v Hk; now apply lookup_update_present
       | intros key Hk; rewrite lookup_update_absent by exact Hk;
         try destruct (truthy next_check); reflexivity ] ]).
Qed.

(** A filter dict that brings its own [force_check]. *)
Lemma actions_filters_override_witness :
  exists session args,
    sent fresh
         (snd (Actions.reschedule_check (@app ascii) (answer 200 None)
                 (Some [(text "type", PStr (text "Host"));
                        (text "force_check", PBool false)])
                 PNone (PBool true) fresh))
         session args /\
    arg_json args =
    Some (PDict [(text "force_check", PBool false);
                 (text "type", PStr (text "Host"))]).
Proof.
  destruct (proj1 (@actions_filters_override (@app ascii) (answer 200 None)
              [(text "type", PStr (text "Host"));
               (text "force_check", PBool false)]
              PNone (PBool true) PNone PNone PNone PNone fresh
              ltac:(discriminate)
              ltac:(apply distinct_NoDup; reflexivity)))
    as [session [args [payload [Hsent _]]]].
  exists session, args. split; [exact Hsent|].
  revert Hsent. unfold sent. vm_compute. intros Hsent.
  injection Hsent as _ <-. reflexivity.
Defined.

(** X10. [remove_downtime] refuses a call with neither a name nor a
    filter: it raises [Icinga2ApiException] and sends nothing; with one
    of them it sends one POST. [remove_comment] has no such check: it
    always sends one POST, and with neither name nor filter its body is
    the type alone. *)
Theorem remove_downtime_checks_remove_comment_does_not
  (urljoin : str -> str -> str)
  (session_post : Session -> RequestArgs -> option Response)
  (object_type : str) (name filters : value) (w : World) :
  let downtime :=
    Actions.remove_downtime urljoin session_post object_type name filters w
  in
  let comment :=
    Actions.remove_comment urljoin session_post object_type name filters w
  in
  (truthy name = false -> truthy filters = false ->
   downtime = (inl (Icinga2ApiException
                      (text "name and filters is empty or none")), w)) /\
  (truthy name = true \/ truthy filters = true ->
   exists session args,
     sent w (snd downtime) session args /\
     arg_url args = urljoin (url (manager (self w)))
                            (text "/v1/actions/remove-downtime")) /\
  (exists session args,
     sent w (snd comment) session args /\
     arg_url args = urljoin (url (manager (self w)))
                            (text "/v1/actions/remove-comment") /\
     (truthy name = false -> truthy filters = false ->
      arg_json args = Some (PDict [(text "type", PStr object_type)]))).
Proof.
  cbn zeta. unfold Actions.remove_downtime, Actions.remove_comment.
  split; [|split].
  - intros -> ->. reflexivity.
  - intros H.
    assert (negb (truthy name) && negb (truthy filters) = false) as ->
      by (destruct H as [-> | ->]; [reflexivity | apply andb_false_r]).
    eexists. eexists. split; [apply request_sent | reflexivity].
  - eexists. eexists. split; [apply request_sent|].
    split; [reflexivity|]. now intros -> ->.
Qed.

(** Neither name nor filter. *)
Lemma remove_downtime_checks_remove_comment_does_not_witness :
  Actions.remove_downtime (@app ascii) (answer 200 None) (text "Downtime")
                          PNone PNone fresh
  = (inl (Icinga2ApiException (text "name and filters is empty or none")),
     fresh).
Proof.
  exact (proj1 (@remove_downtime_checks_remove_comment_does_not (@app ascii)
    (answer 200 None) (text "Downtime") PNone PNone fresh) eq_refl eq_refl).
Defined.

(** X11. For an object type written in ASCII characters (on which
    [lower] is what [str.lower] does): in the body that [remove_comment]
    and [remove_downtime] send, a name that is true is stored under the
    object type in lower case and a filter that is true under [filter],
    the later one winning when the keys are the same. The key [type]
    holds the object type unless the object type in lower case is [type]
    itself and a name is given: the name then takes its place. *)
Theorem remove_body_keys
  (urljoin : str -> str -> str)
  (session_post : Session -> RequestArgs -> option Response)
  (object_type : str) (name filters : value) (w : World) :
  forallb (fun c => nat_of_ascii c <? 128) object_type = true ->
  truthy name = true \/ truthy filters = true ->
  let body_of (result : (exn + value) * World) (payload : list (str * value))
    := exists session args,
         sent w (snd result) session args /\
         arg_json args = Some (PDict payload) in
  exists payload,
    body_of (Actions.remove_comment urljoin session_post object_type name
                                    filters w) payload /\
    body_of (Actions.remove_downtime urljoin session_post object_type name
                                     filters w) payload /\
    (truthy filters = true ->
     lookup (text "filter") payload = Some filters) /\
    (truthy name = true ->
     truthy filters = false \/ lower object_type <> text "filter" ->
     lookup (lower object_type) payload = Some name) /\
    (truthy name = false \/ lower object_type <> text "type" ->
     lookup (text "type") payload = Some (PStr object_type)).
Proof.
  intros _ H. cbn zeta.
  unfold Actions.remove_comment, Actions.remove_downtime.
  assert (negb (truthy name) && negb (truthy filters) = false) as ->
    by (destruct H as [-> | ->]; [reflexivity | apply andb_false_r]).
  cbn zeta.
  change (display [(text "type", PStr object_type)])
    with [(text "type", PStr object_type)].
  eexists. split; [|split].
  - eexists. eexists. split; [apply request_sent|].
    cbn [request_args arg_json]. rewrite truthy_PDict; [reflexivity|].
    destruct (truthy filters), (truthy name);
      try apply setitem_nonempty; discriminate.
  - eexists. eexists. split; [apply request_sent|].
    cbn [request_args arg_json]. rewrite truthy_PDict; [reflexivity|].
    destruct (truthy filters), (truthy name);
      try apply setitem_nonempty; discriminate.
  - split; [|split].
    + intros ->. apply lookup_setitem_same.
    + intros -> Hk. destruct (truthy filters).
      * destruct Hk as [Hk|Hk]; [discriminate|].
        rewrite lookup_setitem_other by congruence.
        apply lookup_setitem_same.
      * apply lookup_setitem_same.
    + intros Hk.
      assert (lookup (text "type")
                (if truthy name
                 then setitem (lower object_type) name
                        [(text "type", PStr object_type)]
                 else [(text "type", PStr object_type)])
              = Some (PStr object_type)) as Hname.
      { destruct (truthy name); [|reflexivity].
        destruct Hk as [Hk|Hk]; [discriminate|].
        now rewrite lookup_setitem_other. }
      destruct (truthy filters); [|exact Hname].
      rewrite lookup_setitem_other by discriminate. exact Hname.
Qed.

(** A comment removed by its name. *)
Lemma remove_body_keys_witness :
  exists session args,
    sent fresh
         (snd (Actions.remove_comment (@app ascii) (answer 200 None)
                 (text "Comment") (PStr (text "web!1")) PNone fresh))
         session args /\
    arg_json args =
    Some (PDict [(text "type", PStr (text "Comment"));
                 (text "comment", PStr (text "web!1"))]).
Proof.
  destruct (@remove_body_keys (@app ascii) (answer 200 None)
              (text "Comment") (PStr (text "web!1")) PNone fresh
              eq_refl (or_introl eq_refl))
    as [payload [[session [args [Hsent Hjson]]] _]].
  exists session, args. split; [exact Hsent|].
  revert Hsent. unfold sent. vm_compute. intros Hsent.
  injection Hsent as _ <-. reflexivity.
Defined.

(** X12. [acknowledge_problem] and [schedule_downtime] check nothing:
    whatever the arguments, [None] included, each sends one POST whose
    body has all its required keys with the values given; [expiry],
    [sticky], [notify], and [fixed], [trigger_name], are in the body
    only when they are true. *)
Theorem acknowledge_and_schedule_request
  (urljoin : str -> str -> str)
  (session_post : Session -> RequestArgs -> option Response)
  (object_type filters author comment expiry sticky notify : value)
  (start_time end_time duration fixed trigger_name : value) (w : World) :
  let when (v : value) := if truthy v then Some v else None in
  (exists session args payload,
     sent w (snd (Actions.acknowledge_problem urljoin session_post
                    object_type filters author comment expiry sticky notify
                    w)) session args /\
     method_override session = Some (text "POST") /\
     arg_url args = urljoin (url (manager (self w)))
                            (text "/v1/actions/acknowledge-problem") /\
     arg_json args = Some (PDict payload) /\
     lookup (text "type") payload = Some object_type /\
     lookup (text "filter") payload = Some filters /\
     lookup (text "author") payload = Some author /\
     lookup (text "comment") payload = Some comment /\
     lookup (text "expiry") payload = when expiry /\
     lookup (text "sticky") payload = when sticky /\
     lookup (text "notify") payload = when notify) /\
  (exists session args payload,
     sent w (snd (Actions.schedule_downtime urljoin session_post
                    object_type filters author comment start_time end_time
                    duration fixed trigger_name w)) session args /\
     method_override session = Some (text "POST") /\
     arg_url args = urljoin (url (manager (self w)))
                            (text "/v1/actions/schedule-downtime") /\
     arg_json args = Some (PDict payload) /\
     lookup (text "type") payload = Some object_type /\
     lookup (text "filter") payload = Some filters /\
     lookup (text "author") payload = Some author /\
     lookup (text "comment") payload = Some comment /\
     lookup (text "start_time") payload = Some start_time /\
     lookup (text "end_time") payload = Some end_time /\
     lookup (text "duration") payload = Some duration /\
     lookup (text "fixed") payload = when fixed /\
     lookup (text "trigger_name") payload = when trigger_name).
Proof.
  cbn zeta. unfold Actions.acknowledge_problem, Actions.schedule_downtime.
  split.
  - destruct (truthy expiry), (truthy sticky), (truthy notify);
      (eexists; eexists; eexists; split; [apply request_sent|];
       split; [reflexivity|]; split; [reflexivity|];
       cbn [request_args arg_json]; compute_payload; now repeat split).
  - destruct (truthy fixed), (truthy trigger_name);
      (eexists; eexists; eexists; split; [apply request_sent|];
       split; [reflexivity|]; split; [reflexivity|];
       cbn [request_args arg_json]; compute_payload; now repeat split).
Qed.

(** X13. [remove_acknowledgement], [add_comment], [shutdown_process],
    [restart_process] and [Status.list] each send exactly one request.
    The first two send their arguments as they are, unchecked; the two
    process actions send no body; [Status.list] sends no body either,
    asks with the method override [GET], and adds the component to the
    URL only when it is true. *)
Theorem simple_requests
  (urljoin : str -> str -> str)
  (session_post : Session -> RequestArgs -> option Response)
  (object_type filters author comment : value) (component : option str)
  (w : World) :
  let goes (result : (exn + value) * World) (method url_path : str)
           (body : option value) :=
    exists session args,
      sent w (snd result) session args /\
      method_override session = Some method /\
      arg_url args = urljoin (url (manager (self w))) url_path /\
      arg_json args = body in
  goes (Actions.remove_acknowledgement urljoin session_post object_type
          filters w)
       (text "POST") (text "/v1/actions/remove-acknowledgement")
       (Some (PDict [(text "type", object_type); (text "filter", filters)]))
  /\
  goes (Actions.add_comment urljoin session_post object_type filters author
          comment w)
       (text "POST") (text "/v1/actions/add-comment")
       (Some (PDict [(text "type", object_type); (text "filter", filters);
                     (text "author", author); (text "comment", comment)]))
  /\
  goes (Actions.shutdown_process urljoin session_post w)
       (text "POST") (text "/v1/actions/shutdown-process") None /\
  goes (Actions.restart_process urljoin session_post w)
       (text "POST") (text "/v1/actions/restart-process") None /\
  goes (Status.list urljoin session_post component w)
       (text "GET")
       (text "/v1/status"
        ++ if truthy_attr component then text "/" ++ format_name component
           else [])
       None.
Proof.
  cbn zeta. repeat split;
    try (eexists; eexists; split; [apply request_sent|];
         now repeat split).
  unfold Status.list. cbn zeta.
  eexists. eexists. split; [apply request_sent|].
  split; [reflexivity|]. split; [|reflexivity].
  cbn [request_args arg_url]. f_equal.
  destruct (truthy_attr component); [reflexivity|].
  now rewrite app_nil_r.
Qed.

(** ** The constructor of [Client] *)

(** X14. Without a config file, [Client.__init__] succeeds only when
    all seven of [url], [username], [password], [timeout], [certificate],
    [key] and [ca_certificate] are given and true; the client then has
    them as they are. As soon as one is missing the constructor raises
    [UnboundLocalError], also when it is the URL: the exception about
    the URL is not reached. *)
Theorem Client_without_config_file
  (fs : FileSystem) (strip : str -> str) (package_version : str)
  (url username password timeout certificate key ca_certificate : option str)
  (config_file : option str) :
  config_file = None \/ config_file = Some [] ->
  let made :=
    Client__init__ fs strip package_version url username password timeout
                   certificate key ca_certificate config_file in
  let all_given :=
    truthy_attr url && truthy_attr username && truthy_attr password
    && truthy_attr timeout && truthy_attr certificate && truthy_attr key
    && truthy_attr ca_certificate in
  (all_given = false -> made = inl UnboundLocalError) /\
  (all_given = true ->
   exists address,
     url = Some address /\
     made = inr {| client.url := address;
                   client.username := username;
                   client.password := password;
                   client.timeout := timeout;
                   client.certificate := certificate;
                   client.key := key;
                   client.ca_certificate := ca_certificate;
                   version := package_version |}).
Proof.
  intros Hfile. cbn zeta. unfold Client__init__.
  assert (truthy_attr config_file = false) as ->
    by (destruct Hfile as [-> | ->]; reflexivity).
  unfold Client_attributes, or_from_file.
  destruct (truthy_attr url) eqn:E1; [|now split].
  destruct (truthy_attr username); [|now split].
  destruct (truthy_attr password); [|now split].
  destruct (truthy_attr timeout); [|now split].
  destruct (truthy_attr certificate); [|now split].
  destruct (truthy_attr key); [|now split].
  destruct (truthy_attr ca_certificate); [|now split].
  split; [discriminate|]. intros _.
  destruct url as [[|c rest]|]; try discriminate E1.
  now exists (c :: rest).
Qed.

(** A URL, a user and a password, and nothing else. *)
Lemma Client_without_config_file_witness :
  Client__init__ example_files (fun s => s) (text "0.3")
    (Some (text "https://localhost:5665")) (Some (text "root"))
    (Some (text "icinga")) None None None None None
  = inl UnboundLocalError.
Proof.
  exact (proj1 (@Client_without_config_file example_files (fun s => s)
    (text "0.3") (Some (text "https://localhost:5665")) (Some (text "root"))
    (Some (text "icinga")) None None None None None (or_introl eq_refl))
    eq_refl).
Defined.

(** What [parse] gives for a file that [cfg.read] accepts and that has
    the section. *)
Lemma parse_section
  (fs : FileSystem) (strip : str -> str) (this : ClientConfigFile)
  (cfg : ConfigParser) :
  read fs (file_name this) = Some cfg ->
  has_section cfg (section this) = true ->
  let kept (name : str) (old : option str) :=
    match get cfg (section this) name with
    | Value v => Some (strip v)
    | _ => old
    end in
  parse fs strip this =
  if existsb (fun name => match get cfg (section this) name with
                          | GetError => true
                          | _ => false
                          end) config_options
  then inl ParserError
  else inr {| file_name := file_name this;
              section := section this;
              file_url := kept (text "url") (file_url this);
              file_username := kept (text "username") (file_username this);
              file_password := kept (text "password") (file_password this);
              file_certificate :=
                kept (text "certificate") (file_certificate this);
              file_key := kept (text "key") (file_key this);
              file_ca_certificate :=
                kept (text "ca_certificate") (file_ca_certificate this);
              file_timeout := kept (text "timeout") (file_timeout this) |}.
Proof.
  intros Hread Hsection. cbn zeta. unfold parse, get_or_keep.
  rewrite Hread, Hsection. cbn [negb config_options existsb].
  destruct (get cfg (section this) (text "url")); [| |reflexivity];
  destruct (get cfg (section this) (text "username")); try reflexivity;
  destruct (get cfg (section this) (text "password")); try reflexivity;
  destruct (get cfg (section this) (text "certificate")); try reflexivity;
  destruct (get cfg (section this) (text "key")); try reflexivity;
  destruct (get cfg (section this) (text "ca_certificate"));
    try reflexivity;
  destruct (get cfg (section this) (text "timeout")); reflexivity.
Qed.

(** X15. With a config file named, the constructor first looks at the
    file, whatever the other arguments. A file that does not exist, then
    a file that cannot be read, each raises
    [Icinga2ApiConfigFileException] with its own message. A file that
    [cfg.read] refuses lets the exception of [configparser] through. A
    file that [cfg.read] accepts but that has no section [api] raises
    [Icinga2ApiConfigFileException] again; and when [cfg.get] raises
    anything but [NoOptionError] for one of the seven options, that
    exception comes through as well. *)
Theorem Client_config_file_errors
  (fs : FileSystem) (strip : str -> str) (package_version : str)
  (url username password timeout certificate key ca_certificate : option str)
  (file : str) :
  file <> [] ->
  let made :=
    Client__init__ fs strip package_version url username password timeout
                   certificate key ca_certificate (Some file) in
  (path_exists fs file = false ->
   made = inl (Raised (Icinga2ApiConfigFileException
                         (text "Config file " ++ [DQUOTE] ++ file
                          ++ [DQUOTE] ++ text " doesn't exist.")))) /\
  (path_exists fs file = true -> access_R_OK fs file = false ->
   made = inl (Raised (Icinga2ApiConfigFileException
                         (text "No read access for config file "
                          ++ [DQUOTE] ++ file ++ [DQUOTE] ++ text "."
                          ++ [LF])))) /\
  (path_exists fs file = true -> access_R_OK fs file = true ->
   read fs file = None ->
   made = inl ParserError) /\
  (forall cfg,
     path_exists fs file = true -> access_R_OK fs file = true ->
     read fs file = Some cfg ->
     has_section cfg (text "api") = false ->
     made = inl (Raised (Icinga2ApiConfigFileException
                           (text "Config file is missing " ++ [DQUOTE]
                            ++ text "api" ++ [DQUOTE]
                            ++ text " section.")))) /\
  (forall cfg option,
     path_exists fs file = true -> access_R_OK fs file = true ->
     read fs file = Some cfg ->
     has_section cfg (text "api") = true ->
     In option config_options ->
     get cfg (text "api") option = GetError ->
     made = inl ParserError).
Proof.
  intros Hfile. cbn zeta. unfold Client__init__.
  assert (truthy_attr (Some file) = true) as ->
    by (destruct file; [contradiction | reflexivity]).
  unfold ClientConfigFile__init__, _check_file_access.
  split; [|split; [|split; [|split]]].
  - now intros ->.
  - now intros -> ->.
  - intros -> -> H. cbn [negb]. unfold parse. cbn [client.file_name].
    now rewrite H.
  - intros cfg -> -> Hread H. cbn [negb]. unfold parse.
    cbn [client.file_name client.section]. now rewrite Hread, H.
  - intros cfg option -> -> Hread Hsection Hin Hget. cbn [negb].
    match goal with
    | |- context [parse fs strip ?this] =>
        rewrite (@parse_section fs strip this cfg Hread Hsection)
    end.
    cbn [client.section].
    assert (existsb (fun name => match get cfg (text "api") name with
                                 | GetError => true
                                 | _ => false
                                 end) config_options = true) as ->;
      [|reflexivity].
    apply existsb_exists. exists option. split; [exact Hin|].
    now rewrite Hget.
Qed.

(** A file without section header, with every argument given. *)
Lemma Client_config_file_errors_witness :
  Client__init__ example_files (fun s => s) (text "0.3")
    (Some (text "https://localhost:5665")) (Some (text "root"))
    (Some (text "icinga")) (Some (text "30")) (Some (text "c.pem"))
    (Some (text "k.pem")) (Some (text "ca.pem")) (Some (text "headless.ini"))
  = inl ParserError.
Proof.
  exact (proj1 (proj2 (proj2 (@Client_config_file_errors example_files
    (fun s => s) (text "0.3") (Some (text "https://localhost:5665"))
    (Some (text "root")) (Some (text "icinga")) (Some (text "30"))
    (Some (text "c.pem")) (Some (text "k.pem")) (Some (text "ca.pem"))
    (text "headless.ini") ltac:(discriminate)))) eq_refl eq_refl eq_refl).
Defined.

(** X16. With a config file that is there, can be read, that
    [cfg.read] accepts, that has the section [api], and for whose seven
    options [cfg.get] returns a value or raises [NoOptionError], every
    attribute of the client is the argument when the argument is true,
    and otherwise the stripped value of the option of that name in the
    file, [None] when the file has none. The constructor raises
    [Icinga2ApiException] about the URL exactly when the URL found this
    way is [None] or empty. *)
Theorem Client_arguments_before_file
  (fs : FileSystem) (strip : str -> str) (package_version : str)
  (url username password timeout certificate key ca_certificate : option str)
  (file : str) (cfg : ConfigParser) :
  file <> [] ->
  path_exists fs file = true ->
  access_R_OK fs file = true ->
  read fs file = Some cfg ->
  has_section cfg (text "api") = true ->
  (forall option,
     In option config_options -> get cfg (text "api") option <> GetError) ->
  let pick (argument : option str) (option : str) :=
    if truthy_attr argument then argument
    else match get cfg (text "api") option with
         | Value v => Some (strip v)
         | _ => None
         end in
  Client__init__ fs strip package_version url username password timeout
                 certificate key ca_certificate (Some file)
  = match pick url (text "url") with
    | Some (c :: rest) =>
        inr {| client.url := c :: rest;
               client.username := pick username (text "username");
               client.password := pick password (text "password");
               client.timeout := pick timeout (text "timeout");
               client.certificate := pick certificate (text "certificate");
               client.key := pick key (text "key");
               client.ca_certificate :=
                 pick ca_certificate (text "ca_certificate");
               version := package_version |}
    | _ => inl (Raised (Icinga2ApiException
                          (text "No " ++ [DQUOTE] ++ text "url" ++ [DQUOTE]
                           ++ text " defined.")))
    end.
Proof.
  intros Hfile Hexists Haccess Hread Hsection Hget. cbn zeta.
  unfold Client__init__.
  assert (truthy_attr (Some file) = true) as ->
    by (destruct file; [contradiction | reflexivity]).
  unfold ClientConfigFile__init__, _check_file_access.
  rewrite Hexists, Haccess. cbn [negb].
  match goal with
  | |- context [parse fs strip ?this] =>
      rewrite (@parse_section fs strip this cfg Hread Hsection)
  end.
  cbn [client.section].
  assert (existsb (fun name => match get cfg (text "api") name with
                               | GetError => true
                               | _ => false
                               end) config_options = false) as ->.
  { apply not_true_is_false. intros H. apply existsb_exists in H.
    destruct H as [option [Hin H]]. apply (Hget option Hin).
    destruct (get cfg (text "api") option); try discriminate H.
    reflexivity. }
  unfold Client_attributes, or_from_file.
  cbn [file_url file_username file_password file_timeout file_certificate
       file_key file_ca_certificate].
  destruct (truthy_attr url), (truthy_attr username), (truthy_attr password),
    (truthy_attr timeout), (truthy_attr certificate), (truthy_attr key),
    (truthy_attr ca_certificate); reflexivity.
Qed.

(** The URL and the user name of the file, the password of the call. *)
Lemma Client_arguments_before_file_witness :
  Client__init__ example_files (fun s => s) (text "0.3")
    None None (Some (text "icinga")) None None None None
    (Some (text "/etc/icinga2api.ini"))
  = inr {| client.url := text "https://icinga:5665";
           client.username := Some (text "monitor");
           client.password := Some (text "icinga");
           client.timeout := None;
           client.certificate := None;
           client.key := None;
           client.ca_certificate := None;
           version := text "0.3" |}.
Proof.
  refine (@Client_arguments_before_file example_files (fun s => s)
    (text "0.3") None None (Some (text "icinga")) None None None None
    (text "/etc/icinga2api.ini") example_config ltac:(discriminate)
    eq_refl eq_refl eq_refl eq_refl _).
  intros option Hin. cbn in Hin.
  repeat (destruct Hin as [<- | Hin]; [discriminate|]). contradiction.
Defined.

(** ** [Base]: the session, the request, the stream *)

(** X17. A session carries a client certificate or a user name with
    password, never both. The certificate decides: when one is given,
    the user name and password are left out; a key without certificate
    is ignored. Without certificate, the session authenticates by name
    only when both user name and password are given. *)
Theorem session_has_certificate_or_password (this : Base) (method : str) :
  let m := manager this in
  let session := _create_session this method in
  (cert session <> None -> auth session = None) /\
  (cert session <> None <-> truthy_attr (certificate m) = true) /\
  (auth session <> None <->
   truthy_attr (certificate m) = false /\
   truthy_attr (username m) = true /\ truthy_attr (password m) = true) /\
  (forall c k,
     cert session = Some (CertAndKey c k) ->
     certificate m = Some c /\ key m = Some k /\ k <> []) /\
  (forall u p,
     auth session = Some (u, p) -> username m = Some u /\ password m = Some p).
Proof.
  cbn zeta. unfold _create_session. cbn [cert auth].
  destruct (certificate (manager this)) as [[|c cs]|],
    (key (manager this)) as [[|k ks]|],
    (username (manager this)) as [[|u us]|],
    (password (manager this)) as [[|p ps]|];
    cbn [truthy_attr andb option_map];
    (repeat split; try discriminate; try congruence;
     try (intros H; now destruct H);
     try (intros H; decompose [and] H; discriminate);
     try (intros ? ? H; injection H as <- <-; now repeat split)).
Qed.

(** A client with a certificate, a user name and a password: the
    session carries the certificate alone. *)
Lemma session_has_certificate_or_password_witness :
  auth (_create_session
          (__init__ {| url := text "https://localhost:5665";
                       username := Some (text "root");
                       password := Some (text "icinga");
                       timeout := None;
                       certificate := Some (text "client.pem");
                       key := None;
                       ca_certificate := None;
                       version := text "0.3" |})
          (text "GET")) = None.
Proof.
  refine (proj1 (@session_has_certificate_or_password
    (__init__ {| url := text "https://localhost:5665";
                 username := Some (text "root");
                 password := Some (text "icinga");
                 timeout := None;
                 certificate := Some (text "client.pem");
                 key := None;
                 ca_certificate := None;
                 version := text "0.3" |})
    (text "GET")) _).
  discriminate.
Defined.

(** X18. [_request] closes the session after the response has come,
    whatever its status. When no response comes, it raises the exception
    of [requests] and the session is not closed. A response with a
    status from 200 to 299 whose body is not JSON makes it raise
    [ValueError], after the request went out. *)
Theorem _request_closes_after_response
  (urljoin : str -> str -> str)
  (session_post : Session -> RequestArgs -> option Response)
  (method url_path : str) (payload : value) (w : World) :
  let session := _create_session (self w) method in
  let args := request_args urljoin (self w) url_path payload in
  let result :=
    fst (_request urljoin session_post method url_path payload w) in
  let w' := snd (_request urljoin session_post method url_path payload w) in
  (session_post session args = None ->
   result = inl RequestException /\
   wire w' = wire w ++ [SessionPost session args]) /\
  (forall response,
     session_post session args = Some response ->
     wire w' = wire w ++ [SessionPost session args; SessionClose] /\
     ((200 <= status_code response <= 299)%Z ->
      body_json response = None -> result = inl ValueError)).
Proof.
  cbn zeta. unfold _request. split.
  - intros ->. now split.
  - intros response ->. cbn zeta.
    destruct ((200 <=? status_code response)%Z
              && (status_code response <=? 299)%Z) eqn:E; cbn [negb fst snd].
    + split; [reflexivity|]. intros _ Hbody. unfold json. now rewrite Hbody.
    + split; [reflexivity|]. intros [H1 H2] _.
      apply Z.leb_le in H1, H2. rewrite H1, H2 in E. discriminate E.
Qed.

(** A server that cannot be reached. *)
Lemma _request_closes_after_response_witness :
  let session := _create_session (self fresh) (text "GET") in
  let args :=
    request_args (@app ascii) (self fresh) (text "/v1/status") PNone in
  fst (_request (@app ascii) (fun _ _ => None) (text "GET")
                (text "/v1/status") PNone fresh) = inl RequestException /\
  wire (snd (_request (@app ascii) (fun _ _ => None) (text "GET")
                      (text "/v1/status") PNone fresh))
  = wire fresh ++ [SessionPost session args].
Proof.
  exact (proj1 (@_request_closes_after_response (@app ascii)
    (fun _ _ => None) (text "GET") (text "/v1/status") PNone fresh) eq_refl).
Defined.

Lemma feed_Some_nonempty (chunk split_str : str) (w w' : World)
  (lines : list str) :
  feed chunk split_str w = (inr (Some lines), w') -> lines <> [].
Proof.
  unfold feed. destruct (split _ split_str) as [e|pieces]; [discriminate|].
  destruct (2 <=? length pieces) eqn:E; [|discriminate].
  intros H. injection H as <- _. apply Nat.leb_le in E.
  destruct pieces as [|a [|b pieces]]; cbn [length] in E; try lia.
  discriminate.
Qed.

(** X19. Every list that [fetech_from_stream] yields holds at least one
    record, whatever the stream, the delimiter and the state it starts
    in; so every turn of the outer loop of [subscribe] yields at least
    one event. *)
Theorem fetech_from_stream_yields_no_empty_list
  (stream : value) (split_str : str) (chunk_size : nat) (w : World) :
  Forall (fun lines => lines <> [])
         (items (fetech_from_stream stream split_str chunk_size w)).
Proof.
  unfold fetech_from_stream.
  destruct (call stream chunk_size) as [e|chunks]; [constructor|].
  revert w. induction chunks as [|chunk chunks IH]; intros w;
    [constructor|].
  cbn [fetech_loop].
  destruct (feed chunk split_str w) as [[e | [lines|]] w'] eqn:Hfeed;
    cbn [items].
  - constructor.
  - constructor; [now apply feed_Some_nonempty in Hfeed | apply IH].
  - apply IH.
Qed.

(** X20. From a state that feeding chunks can reach, the records of a
    run and the carry-over it leaves depend on the data alone, not on
    where the stream cuts it into chunks. *)
Theorem records_do_not_depend_on_chunking
  (split_str : str) (chunks1 chunks2 : list str) (w : World) :
  split_str <> [] ->
  reachable split_str w ->
  concat chunks1 = concat chunks2 ->
  let g1 := fetech_loop chunks1 split_str w in
  let g2 := fetech_loop chunks2 split_str w in
  records g1 = records g2 /\
  stream_cache (self (final g1)) = stream_cache (self (final g2)).
Proof.
  destruct split_str as [|c sep]; [contradiction|].
  intros _ Hw Hdata. apply reachable_cache in Hw.
  destruct (@run_split c sep chunks1 w Hw) as [R1 F1].
  destruct (@run_split c sep chunks2 w Hw) as [R2 F2].
  cbn zeta in *. rewrite R1, R2, F1, F2, Hdata. now split.
Qed.

(** Two lines in one chunk, or cut in the middle of the second. *)
Lemma records_do_not_depend_on_chunking_witness :
  records (fetech_loop [text "a" ++ [LF] ++ text "bc" ++ [LF]]
                       default_split_str fresh)
  = records (fetech_loop [text "a" ++ [LF] ++ text "b"; text "c" ++ [LF]]
                         default_split_str fresh).
Proof.
  exact (proj1 (@records_do_not_depend_on_chunking default_split_str
    [text "a" ++ [LF] ++ text "bc" ++ [LF]]
    [text "a" ++ [LF] ++ text "b"; text "c" ++ [LF]] fresh
    ltac:(discriminate) (reach_new _ example_client []) eq_refl)).
Defined.

(** X21. With an empty delimiter a run never yields. It ends at once
    when the stream has no chunk; otherwise it raises [ValueError] at
    the first chunk, which by then has been added to [stream_cache]. *)
Theorem empty_delimiter_raises_at_first_chunk
  (chunks : nat -> list str) (chunk_size : nat) (w : World) :
  let g := fetech_from_stream (PCallable chunks) [] chunk_size w in
  items g = [] /\
  (chunks chunk_size = [] -> g = Return w) /\
  (forall chunk later,
     chunks chunk_size = chunk :: later ->
     g = Raise ValueError (set_cache w (stream_cache (self w) ++ chunk))).
Proof.
  cbn zeta. unfold fetech_from_stream. cbn [call].
  destruct (chunks chunk_size) as [|chunk later].
  - now repeat split.
  - repeat split; try discriminate.
    intros chunk' later' H. now injection H as <- <-.
Qed.

Lemma empty_delimiter_raises_at_first_chunk_witness :
  fetech_from_stream (stream_of [text "a" ++ [LF]; text "b"]) []
                     default_chunk_size fresh
  = Raise ValueError (set_cache fresh (text "a" ++ [LF])).
Proof.
  exact (proj2 (proj2 (@empty_delimiter_raises_at_first_chunk
    (fun _ => [text "a" ++ [LF]; text "b"]) default_chunk_size fresh))
    (text "a" ++ [LF]) [text "b"] eq_refl).
Defined.

(** X22. In a state that feeding chunks can reach, an empty chunk
    yields nothing and leaves the object as it is. *)
Theorem empty_chunk_changes_nothing (split_str : str) (w : World) :
  split_str <> [] ->
  reachable split_str w ->
  feed [] split_str w = (inr None, w).
Proof.
  destruct split_str as [|c sep]; [contradiction|].
  intros _ Hw. apply reachable_cache in Hw.
  rewrite feed_quiet by now rewrite app_nil_r.
  rewrite app_nil_r. destruct w as [[m cache] traffic]. reflexivity.
Qed.

Lemma empty_chunk_changes_nothing_witness :
  feed [] default_split_str fresh = (inr None, fresh).
Proof.
  exact (@empty_chunk_changes_nothing default_split_str fresh
           ltac:(discriminate) (reach_new _ example_client [])).
Defined.

(** ** All request builders *)

Lemma request_self
  (urljoin : str -> str -> str)
  (session_post : Session -> RequestArgs -> option Response)
  (method url_path : str) (payload : value) (w : World) :
  self (snd (_request urljoin session_post method url_path payload w))
  = self w.
Proof.
  unfold _request. destruct (session_post _ _) as [response|];
    [destruct (negb _)|]; reflexivity.
Qed.

(** X23. Every method of [Objects], [Actions] and [Status] leaves the
    object it is called on as it was, the carry-over of the stream
    included, and sends at most one request: none when it refuses its
    arguments, one otherwise. *)
Theorem builders_send_at_most_one_request
  (urljoin : str -> str -> str)
  (session_post : Session -> RequestArgs -> option Response)
  (w : World) :
  let tame (result : (exn + value) * World) :=
    self (snd result) = self w /\
    (snd result = w \/ exists session args, sent w (snd result) session args)
  in
  (forall object_type name attrs filters joins,
      tame (Objects.list urljoin session_post object_type name attrs filters
                         joins w)) /\
  (forall object_type name templates attrs,
      tame (Objects.create urljoin session_post object_type name templates
                           attrs w)) /\
  (forall object_type name attrs,
      tame (Objects.update urljoin session_post object_type name attrs w)) /\
  (forall object_type name filters cascade,
      tame (Objects.delete urljoin session_post object_type name filters
                           cascade w)) /\
  (forall object_type name exit_status plugin_output performance_data
          check_command check_source,
      tame (Actions.process_check_result urljoin session_post object_type
              name exit_status plugin_output performance_data check_command
              check_source w)) /\
  (forall filters next_check force_check,
      tame (Actions.reschedule_check urljoin session_post filters next_check
              force_check w)) /\
  (forall filters author comment force,
      tame (Actions.send_custom_notification urljoin session_post filters
              author comment force w)) /\
  (forall filters timestamp,
      tame (Actions.delay_notification urljoin session_post filters
              timestamp w)) /\
  (forall object_type filters author comment expiry sticky notify,
      tame (Actions.acknowledge_problem urljoin session_post object_type
              filters author comment expiry sticky notify w)) /\
  (forall object_type filters,
      tame (Actions.remove_acknowledgement urljoin session_post object_type
              filters w)) /\
  (forall object_type filters author comment,
      tame (Actions.add_comment urljoin session_post object_type filters
              author comment w)) /\
  (forall object_type name filters,
      tame (Actions.remove_comment urljoin session_post object_type name
              filters w)) /\
  (forall object_type filters author comment start_time end_time duration
          fixed trigger_name,
      tame (Actions.schedule_downtime urljoin session_post object_type
              filters author comment start_time end_time duration fixed
              trigger_name w)) /\
  (forall object_type name filters,
      tame (Actions.remove_downtime urljoin session_post object_type name
              filters w)) /\
  tame (Actions.shutdown_process urljoin session_post w) /\
  tame (Actions.restart_process urljoin session_post w) /\
  (forall component, tame (Status.list urljoin session_post component w)).
Proof.
  cbn zeta.
  assert (forall method url_path payload,
            self (snd (_request urljoin session_post method url_path
                                payload w)) = self w /\
            (snd (_request urljoin session_post method url_path payload w)
             = w \/
             exists session args,
               sent w (snd (_request urljoin session_post method url_path
                                     payload w)) session args)) as Hrequest.
  { intros method url_path payload. split; [apply request_self|].
    right. eexists. eexists. apply request_sent. }
  assert (forall e : exn,
            self (snd (@inl exn value e, w)) = self w /\
            (snd (@inl exn value e, w) = w \/
             exists session args,
               sent w (snd (@inl exn value e, w)) session args)) as Hrefuse.
  { intros e. split; [reflexivity | now left]. }
  repeat split; intros;
    unfold Objects.list, Objects.create, Objects.update, Objects.delete,
      Actions.process_check_result, Actions.reschedule_check,
      Actions.send_custom_notification, Actions.delay_notification,
      Actions.acknowledge_problem, Actions.remove_acknowledgement,
      Actions.add_comment, Actions.remove_comment, Actions.schedule_downtime,
      Actions.remove_downtime, Actions.shutdown_process,
      Actions.restart_process, Status.list;
    cbn zeta;
    try match goal with
        | |- context [Objects._convert_object_type ?t] =>
            destruct (Objects._convert_object_type t)
        | |- context [if ?b then (inl _, _) else _] => destruct b
        end;
    first [apply Hrefuse | apply Hrequest].
Qed.
